(** * Notes on "Composing Software": a shallow embedding of the snippets

    The repository is a set of annotated JavaScript snippets.  Each source
    file gets a module below that embeds the functions the properties talk
    about:

    - [Reduce]   : the "Reduce" notes ([filter], [compose], [pipe], the
                   Redux-style [summingReducer]);
    - [Hof]      : nocs-04-hof.js ([reduce], [filter], both [censor]s);
    - [Functors] : nocs-06-functors.js ([Identity], [trace]);
    - [Mixins]   : the "Functional Mixins" notes ([flying], [quacking],
                   [createDuck], [withLogging], [addConfig], [createConfig]).

    Further modules cover the rest of these files: [Pipeline] (chaining of
    [pipe] and [compose], the labelled [trace] of the introduction),
    [MapFilter] ([map] and [filter] written with [reduce]), [Redux] (the
    summing reducers over whole arrays), [ArrayMethods]
    ([Array.prototype.map] and [filter]), [HofMore] ([startsWithS],
    [reduce], [highpass]), [FunctorsMore] (arrays as functors, the iterator
    of [Identity], [fRange], [ifExists], [curry]) and [MixinsMore] (how
    mixins combine and share state, and what a copy leaves behind).

    Conventions.  JavaScript data is the type [value].  A number is an
    integer-valued double ([VNum], carrying the integer) or one of NaN and
    the two infinities ([VNonFinite]); arithmetic rounds as IEEE doubles do
    ([round_to_double]), so it is exact up to 2^53 and rounds to nearest,
    ties to even, beyond.  Fractions and the negative zero are outside the
    development.  A string is a [string], one character per UTF-16 code
    unit.
    A thrown exception is the [Err] outcome of [result].  Functions stay
    Rocq functions; a closure that lives inside an object is a constructor
    that records what the closure captured. *)

From Stdlib Require Import ZArith List Ascii String Lia DecimalString.
From stdpp Require Import base option list strings gmap.
Import ListNotations.

Local Open Scope Z_scope.

(** ** JavaScript data *)

#[local] Set Warnings "-register-all".

(** The numbers that are not finite. *)
Inductive nonfinite : Type :=
| NaN
| PosInfinity
| NegInfinity.

Inductive value : Type :=
| VUndefined
| VNull
| VBool (b : bool)
| VNum (n : Z)
| VNonFinite (x : nonfinite)
| VStr (s : string)
| VObj (props : list (string * value)).

(** The exceptions the snippets can raise. [Unmodelled] is not a JavaScript
    exception: it marks a step whose JavaScript meaning is outside this
    development, such as printing the digits of a number past 2^53. *)
Inductive error : Type :=
| TypeError (msg : string)
| RangeError (msg : string)
| Unmodelled (what : string).

Inductive result (A : Type) : Type :=
| Ok (a : A)
| Err (e : error).

Arguments Ok {A} a.
Arguments Err {A} e.

#[global] Instance result_ret : MRet result := fun _ a => Ok a.

#[global] Instance result_bind : MBind result := fun _ _ f m =>
  match m with
  | Ok a => f a
  | Err e => Err e
  end.

(** First binding of [key] in an object literal's property list. *)
Fixpoint own_property (props : list (string * value)) (key : string) : value :=
  match props with
  | [] => VUndefined
  | (k, v) :: rest => if String.eqb k key then v else own_property rest key
  end.

(** [o.key] / [o[key]].  Reading a property off [undefined] or [null]
    throws; a primitive has none of the keys the snippets read ([type],
    [payload], [value]), so the read gives [undefined]. *)
Definition get (o : value) (key : string) : result value :=
  match o with
  | VUndefined => Err (TypeError "Cannot read properties of undefined")
  | VNull => Err (TypeError "Cannot read properties of null")
  | VObj props => Ok (own_property props key)
  | VBool _ | VNum _ | VNonFinite _ | VStr _ => Ok VUndefined
  end.

(** [a === s] for a string literal [s]. *)
Definition strict_eq_str (a : value) (s : string) : bool :=
  match a with
  | VStr t => String.eqb t s
  | _ => false
  end.

(** [a === n] for a number literal [n]. *)
Definition strict_eq_num (a : value) (n : Z) : bool :=
  match a with
  | VNum m => Z.eqb m n
  | _ => false
  end.

(** *** Numbers

    Every integer of absolute value up to 2^53 is a double. *)
Definition two53 : Z := 2 ^ 53.

(** The double nearest to the integer [z], ties going to the even
    significand: what an arithmetic operation returns when its exact
    result is [z].  Past the largest double the result is an infinity. *)
Definition round_to_double (z : Z) : value :=
  let a := Z.abs z in
  if a <=? two53 then VNum z
  else
    let shift := Z.log2 a - 52 in
    let q := Z.shiftr a shift in
    let r := Z.land a (Z.ones shift) in
    let half := Z.shiftl 1 (shift - 1) in
    let q' := if (half <? r) || ((r =? half) && Z.odd q) then q + 1 else q in
    let m := Z.shiftl q' shift in
    if 2 ^ 1024 <=? m
    then VNonFinite (if z <? 0 then NegInfinity else PosInfinity)
    else VNum (Z.sgn z * m).

(** The decimal digits of an integer, with a leading [-] when negative. *)
Definition digits (n : Z) : string :=
  NilZero.string_of_int (Z.to_int n).

(** Does the object have an own property [key]? *)
Definition has_own (props : list (string * value)) (key : string) : bool :=
  existsb (fun kv => String.eqb kv.1 key) props.

(** ToPrimitive.  A primitive is itself.  An object is asked for [valueOf]
    and then [toString]: an own property of either name holds data here,
    which cannot be called, so it is skipped; the inherited [valueOf]
    returns the object, which is no primitive; the inherited [toString]
    returns ["[object Object]"].  With an own [toString] in the way nothing
    is left to call. *)
Definition to_primitive (v : value) : result value :=
  match v with
  | VObj props =>
      if has_own props "toString"
      then Err (TypeError "Cannot convert object to primitive value")
      else Ok (VStr "[object Object]")
  | _ => Ok v
  end.

(** ToString of a primitive.  The digits of a number past 2^53 (the
    shortest that read back as the same double) are outside this
    development. *)
Definition to_string (v : value) : result string :=
  match v with
  | VUndefined => Ok "undefined"
  | VNull => Ok "null"
  | VBool true => Ok "true"
  | VBool false => Ok "false"
  | VNum n =>
      if Z.abs n <=? two53 then Ok (digits n)
      else Err (Unmodelled "the digits of a number past 2^53")
  | VNonFinite NaN => Ok "NaN"
  | VNonFinite PosInfinity => Ok "Infinity"
  | VNonFinite NegInfinity => Ok "-Infinity"
  | VStr s => Ok s
  | VObj _ => Ok "[object Object]"
  end.

(** ToNumber of a primitive that is not a string. *)
Definition to_number (v : value) : value :=
  match v with
  | VUndefined => VNonFinite NaN
  | VNull => VNum 0
  | VBool true => VNum 1
  | VBool false => VNum 0
  | VNum n => VNum n
  | VNonFinite x => VNonFinite x
  | VStr _ | VObj _ => VNonFinite NaN
  end.

(** The sum of two numbers. *)
Definition number_add (a b : value) : value :=
  match a, b with
  | VNum m, VNum n => round_to_double (m + n)
  | VNonFinite NaN, _ | _, VNonFinite NaN => VNonFinite NaN
  | VNonFinite PosInfinity, VNonFinite NegInfinity => VNonFinite NaN
  | VNonFinite NegInfinity, VNonFinite PosInfinity => VNonFinite NaN
  | VNonFinite x, _ => VNonFinite x
  | _, VNonFinite x => VNonFinite x
  | _, _ => VNonFinite NaN
  end.

(** [a + b]: both operands are made primitive; if either is then a string
    the two are turned into strings and concatenated, otherwise they are
    turned into numbers and added. *)
Definition js_add (a b : value) : result value :=
  lprim ← to_primitive a;
  rprim ← to_primitive b;
  match lprim, rprim with
  | VStr _, _ | _, VStr _ =>
      lstr ← to_string lprim;
      rstr ← to_string rprim;
      mret (VStr (lstr ++ rstr))
  | _, _ => mret (number_add (to_number lprim) (to_number rprim))
  end.

(** A default parameter [p = d]: the default is taken when the argument is
    missing, which JavaScript does not distinguish from passing
    [undefined]. *)
Definition default_param (d : value) (arg : value) : value :=
  match arg with
  | VUndefined => d
  | _ => arg
  end.

(** ** Array.prototype.reduce and Array.prototype.reduceRight

    Arrays are lists.  Both loops follow the language definition: [k] walks
    the indices, an index that holds no element is skipped, and the callback
    receives the accumulator, the element, the index and the array. *)
Module ArrayPrototype.

Section Loops.

Context {A B : Type}.

Variable callbackfn : B -> A -> nat -> list A -> B.
Variable O : list A.

(** [k] is the next index and [n] the number of indices left, [len - k]. *)
Fixpoint reduce_from (k n : nat) (accumulator : B) : B :=
  match n with
  | 0%nat => accumulator
  | S n' =>
      reduce_from (S k) n'
        (match O !! k with
         | Some kValue => callbackfn accumulator kValue k O
         | None => accumulator
         end)
  end.

(** [k] is one more than the next index: the loop visits [k-1], ..., [0]. *)
Fixpoint reduceRight_from (k : nat) (accumulator : B) : B :=
  match k with
  | 0%nat => accumulator
  | S k' =>
      reduceRight_from k'
        (match O !! k' with
         | Some kValue => callbackfn accumulator kValue k' O
         | None => accumulator
         end)
  end.

End Loops.

(** [O.reduce(callbackfn, initialValue)] *)
Definition reduce {A B : Type} (callbackfn : B -> A -> nat -> list A -> B)
  (initialValue : B) (O : list A) : B :=
  reduce_from callbackfn O 0%nat (length O) initialValue.

(** [O.reduceRight(callbackfn, initialValue)] *)
Definition reduceRight {A B : Type} (callbackfn : B -> A -> nat -> list A -> B)
  (initialValue : B) (O : list A) : B :=
  reduceRight_from callbackfn O (length O) initialValue.

Section LoopFacts.

Context {A B : Type}.

Variable callbackfn : B -> A -> nat -> list A -> B.
Variable step : B -> A -> B.
Hypothesis callback_ignores_position :
  forall acc a k O, callbackfn acc a k O = step acc a.

Lemma reduce_from_app (done todo : list A) (acc : B) :
  reduce_from callbackfn (done ++ todo) (length done) (length todo) acc
  = fold_left step todo acc.
Proof.
  revert done acc.
  induction todo as [|a todo IH]; intros done acc; simpl; [reflexivity|].
  rewrite lookup_app_r by lia.
  replace (length done - length done)%nat with 0%nat by lia. simpl.
  rewrite callback_ignores_position.
  replace (done ++ a :: todo) with ((done ++ [a]) ++ todo)
    by (rewrite <- app_assoc; reflexivity).
  replace (S (length done)) with (length (done ++ [a]))
    by (rewrite length_app; simpl; lia).
  apply IH.
Qed.

Lemma reduce_fold_left (init : B) (O : list A) :
  reduce callbackfn init O = fold_left step O init.
Proof.
  unfold reduce. apply (reduce_from_app [] O init).
Qed.

Lemma reduceRight_from_app (todo rest : list A) (acc : B) :
  reduceRight_from callbackfn (todo ++ rest) (length todo) acc
  = fold_right (fun a b => step b a) acc todo.
Proof.
  revert rest acc.
  induction todo as [|a todo IH] using rev_ind; intros rest acc;
    [reflexivity|].
  rewrite length_app, Nat.add_comm. simpl.
  rewrite <- app_assoc. simpl.
  rewrite lookup_app_r by lia.
  replace (length todo - length todo)%nat with 0%nat by lia. simpl.
  rewrite callback_ignores_position.
  rewrite IH, fold_right_app. reflexivity.
Qed.

Lemma reduceRight_fold_right (init : B) (O : list A) :
  reduceRight callbackfn init O = fold_right (fun a b => step b a) init O.
Proof.
  unfold reduceRight.
  rewrite <- (app_nil_r O) at 1.
  apply reduceRight_from_app.
Qed.

End LoopFacts.

End ArrayPrototype.

(** A callback that can throw, run by a loop that cannot catch: the
    accumulator carries the outcome, and once it is [Err] the remaining
    iterations pass the exception on untouched. *)
Definition throwing {A B : Type} (f : B -> A -> result B)
  : result B -> A -> nat -> list A -> result B :=
  fun acc a _ _ => acc ≫= fun b => f b a.

(** ** The "Reduce" notes *)
Module Reduce.

(** [const filter = (fn, arr) => arr.reduce((newArr, item) =>
      fn(item) ? newArr.concat([item]) : newArr, []);] *)
Definition filter {A : Type} (fn : A -> result bool) (arr : list A)
  : result (list A) :=
  ArrayPrototype.reduce
    (throwing (fun newArr item =>
       keep ← fn item;
       mret (if keep : bool then newArr ++ [item] else newArr)))
    (Ok []) arr.

(** [const compose = (...fns) => x => fns.reduceRight((v, f) => f(v), x);] *)
Definition compose {A : Type} (fns : list (A -> A)) : A -> A :=
  fun x => ArrayPrototype.reduceRight (fun v f _ _ => f v) x fns.

(** [const pipe = (...fns) => x => fns.reduce((v, f) => f(v), x);] *)
Definition pipe {A : Type} (fns : list (A -> A)) : A -> A :=
  fun x => ArrayPrototype.reduce (fun v f _ _ => f v) x fns.

Definition add1 (n : Z) : Z := n + 1.
Definition double (n : Z) : Z := n * 2.

Definition add1ThenDoubleWithCompose : Z -> Z := compose [double; add1].
Definition add1ThenDouble : Z -> Z := pipe [add1; double].
Definition doubleThenAdd1 : Z -> Z := pipe [double; add1].

(** What "left to right" and "right to left" mean, written out:
    [left_to_right [f1; ...; fn] x = fn (... (f2 (f1 x)))] and
    [right_to_left [f1; ...; fn] x = f1 (... (fn x))]. *)
Fixpoint left_to_right {A : Type} (fns : list (A -> A)) (x : A) : A :=
  match fns with
  | [] => x
  | f :: rest => left_to_right rest (f x)
  end.

Fixpoint right_to_left {A : Type} (fns : list (A -> A)) (x : A) : A :=
  match fns with
  | [] => x
  | f :: rest => f (right_to_left rest x)
  end.

(** *** The Redux-style reducer *)

Definition ADD_VALUE : string := "ADD_VALUE".

(** [const summingReducer = (state = 0, action = {}) => {
      const { type, payload } = action;
      switch (type) {
        case ADD_VALUE: return state + payload.value;
        default: return state;
      }
    };] *)
Definition summingReducer (state_arg action_arg : value) : result value :=
  let state := default_param (VNum 0) state_arg in
  let action := default_param (VObj []) action_arg in
  type ← get action "type";
  payload ← get action "payload";
  if strict_eq_str type ADD_VALUE then
    value ← get payload "value";
    js_add state value
  else
    mret state.

(** [{ type: 'ADD_VALUE', payload: { value: v } }] *)
Definition add_value (v : value) : value :=
  VObj [("type", VStr "ADD_VALUE"); ("payload", VObj [("value", v)])].

Definition actions : list value :=
  [add_value (VNum 1); add_value (VNum 1); add_value (VNum 1)].

(** [actions.reduce(summingReducer, 0)] *)
Definition reduce_actions (actions : list value) : result value :=
  ArrayPrototype.reduce (throwing summingReducer) (Ok (VNum 0)) actions.

(** *** Facts *)

Lemma pipe_left_to_right {A : Type} (fns : list (A -> A)) (x : A) :
  pipe fns x = left_to_right fns x.
Proof.
  unfold pipe.
  rewrite (ArrayPrototype.reduce_fold_left _ (fun v f => f v))
    by reflexivity.
  revert x. induction fns as [|f rest IH]; intros x; simpl; auto.
Qed.

Lemma compose_right_to_left {A : Type} (fns : list (A -> A)) (x : A) :
  compose fns x = right_to_left fns x.
Proof.
  unfold compose.
  rewrite (ArrayPrototype.reduceRight_fold_right _ (fun v f => f v))
    by reflexivity.
  induction fns as [|f rest IH]; simpl; congruence.
Qed.

Lemma left_to_right_snoc {A : Type} (fns : list (A -> A)) (f : A -> A) (x : A) :
  left_to_right (fns ++ [f]) x = f (left_to_right fns x).
Proof.
  revert x. induction fns as [|g rest IH]; intros x; simpl; auto.
Qed.

Lemma left_to_right_rev {A : Type} (fns : list (A -> A)) (x : A) :
  left_to_right fns x = right_to_left (rev fns) x.
Proof.
  induction fns as [|f rest IH] using rev_ind; [reflexivity|].
  rewrite left_to_right_snoc, rev_app_distr. simpl. congruence.
Qed.

(** C1.  [pipe] applies its functions left to right and [compose] right to
    left, for every list of unary functions and every input; so
    [compose(f, g)(x) = f(g(x)) = pipe(g, f)(x)], piping a list is composing
    its reverse, and the three worked examples give 6, 6 and 5. *)
Theorem pipe_compose_fold_semantics :
  (forall (A : Type) (fns : list (A -> A)) (x : A),
      pipe fns x = left_to_right fns x
      /\ compose fns x = right_to_left fns x
      /\ pipe fns x = compose (rev fns) x)
  /\ (forall (A : Type) (fns : list (A -> A)) (f : A -> A) (x : A),
      pipe [] x = x /\ pipe (fns ++ [f]) x = f (pipe fns x)
      /\ compose [] x = x /\ compose (f :: fns) x = f (compose fns x))
  /\ (forall (A : Type) (f g : A -> A) (x : A),
      compose [f; g] x = f (g x) /\ pipe [g; f] x = f (g x))
  /\ add1ThenDoubleWithCompose 2 = 6
  /\ add1ThenDouble 2 = 6
  /\ doubleThenAdd1 2 = 5.
Proof.
  split; [|split; [|split]].
  - intros A fns x. split; [|split].
    + apply pipe_left_to_right.
    + apply compose_right_to_left.
    + rewrite pipe_left_to_right, compose_right_to_left.
      apply left_to_right_rev.
  - intros A fns f x.
    rewrite !pipe_left_to_right, !compose_right_to_left.
    rewrite left_to_right_snoc. simpl. auto.
  - intros A f g x.
    rewrite pipe_left_to_right, compose_right_to_left. simpl. auto.
  - repeat split; vm_compute; reflexivity.
Qed.

Lemma default_param_defined (d s : value) :
  s <> VUndefined -> default_param d s = s.
Proof.
  intros Hs. destruct s; try reflexivity. congruence.
Qed.

Lemma round_to_double_exact (z : Z) :
  Z.abs z <= two53 -> round_to_double z = VNum z.
Proof.
  intros Hz. unfold round_to_double. cbn zeta.
  destruct (Z.leb_spec (Z.abs z) two53); [reflexivity | lia].
Qed.

Lemma summingReducer_other (s : value) (props : list (string * value)) :
  s <> VUndefined ->
  own_property props "type" <> VStr ADD_VALUE ->
  summingReducer s (VObj props) = Ok s.
Proof.
  intros Hs Htype.
  unfold summingReducer. rewrite default_param_defined by assumption.
  simpl.
  destruct (own_property props "type") as [| |b|n|x|t|ps]; try reflexivity.
  simpl. destruct (String.eqb_spec t ADD_VALUE) as [->|Hne];
    [congruence | reflexivity].
Qed.

(** Against C7 as stated.  "For every state [s]" fails at the state
    [undefined]: with the empty action, or an action of another type, the
    reducer returns 0, not the state it was given. *)
Lemma summingReducer_replaces_undefined_state :
  summingReducer VUndefined (VObj []) = Ok (VNum 0)
  /\ summingReducer VUndefined (VObj [("type", VStr "OTHER")]) = Ok (VNum 0)
  /\ summingReducer VUndefined (VObj []) <> Ok VUndefined.
Proof.
  repeat split; try reflexivity. discriminate.
Qed.

(** C7, amended.  [summingReducer] follows the reducer rules.  Without
    arguments it returns the initial state 0, and a state of [undefined]
    counts as missing: the reducer acts as on the state 0.  On every other
    state [s] and every action object whose [type] is not ['ADD_VALUE']
    (the empty object and the missing action included) it returns [s].  On
    an ADD_VALUE action it returns [s + v] by JavaScript's [+]: for
    integers [s] and [v] of absolute value up to 2^53 whose sum is in that
    range too, the exact sum (past it the sum rounds: 2^53 + 1 gives
    2^53); for a string state, the string followed by the digits of [v].
    Reducing the three ADD_VALUE actions of value 1 from 0 gives 3. *)
Theorem summingReducer_reducer_rules :
  summingReducer VUndefined VUndefined = Ok (VNum 0)
  /\ (forall action : value,
        summingReducer VUndefined action = summingReducer (VNum 0) action)
  /\ (forall (s : value) (props : list (string * value)),
        s <> VUndefined ->
        own_property props "type" <> VStr ADD_VALUE ->
        summingReducer s (VObj props) = Ok s)
  /\ (forall s : value, s <> VUndefined ->
        summingReducer s (VObj []) = Ok s
        /\ summingReducer s VUndefined = Ok s)
  /\ (forall s v : Z,
        Z.abs s <= 2 ^ 53 -> Z.abs v <= 2 ^ 53 -> Z.abs (s + v) <= 2 ^ 53 ->
        summingReducer (VNum s) (add_value (VNum v)) = Ok (VNum (s + v)))
  /\ summingReducer (VNum (2 ^ 53)) (add_value (VNum 1)) = Ok (VNum (2 ^ 53))
  /\ (forall (t : string) (v : Z),
        Z.abs v <= 2 ^ 53 ->
        summingReducer (VStr t) (add_value (VNum v))
        = Ok (VStr (t ++ digits v)))
  /\ reduce_actions actions = Ok (VNum 3).
Proof.
  split; [reflexivity|]. split; [reflexivity|].
  split; [exact summingReducer_other|]. split.
  { intros s Hs. split.
    - by apply (summingReducer_other s []).
    - unfold summingReducer. rewrite default_param_defined by assumption.
      reflexivity. }
  split.
  { intros s v _ _ Hsum.
    change (summingReducer (VNum s) (add_value (VNum v)))
      with (Ok (round_to_double (s + v)) : result value).
    by rewrite round_to_double_exact. }
  split; [vm_compute; reflexivity|]. split.
  { intros t v Hv.
    change (summingReducer (VStr t) (add_value (VNum v)))
      with (to_string (VNum v) ≫= fun rstr => Ok (VStr (t ++ rstr))).
    unfold to_string.
    destruct (Z.leb_spec (Z.abs v) two53) as [_|Hgt]; [reflexivity|].
    unfold two53 in Hgt. lia. }
  vm_compute. reflexivity.
Qed.

End Reduce.

(** ** nocs-04-hof.js: higher order functions *)
Module Hof.

(** [word.length]: the number of code units of a string, the [length]
    property of an object, [undefined] on a number or a boolean, and a
    TypeError on [undefined] and [null]. *)
Definition length_of (v : value) : result value :=
  match v with
  | VStr s => Ok (VNum (Z.of_nat (String.length s)))
  | VObj props => Ok (own_property props "length")
  | VBool _ | VNum _ | VNonFinite _ => Ok VUndefined
  | VUndefined => Err (TypeError "Cannot read properties of undefined")
  | VNull => Err (TypeError "Cannot read properties of null")
  end.

(** [arr[i]]: reading past the end of an array gives [undefined]. *)
Definition at_index (arr : list value) (i : nat) : value :=
  default VUndefined (arr !! i).

(** [word => word.length !== 4] *)
Definition not_four_long (word : value) : result bool :=
  len ← length_of word;
  mret (negb (strict_eq_num len 4)).

Module FirstOrder.

(** The loop of the first-order [censor]:
    [for (let i = 0, { length } = words; i < length; i++) {
       const word = words[i];
       if (word.length !== 4) filtered.push(word);
     }]
    [length] is read once and [i] steps by one, so [n = length - i] counts
    the iterations left. *)
Fixpoint censor_for (words : list value) (i n : nat) (filtered : list value)
  : result (list value) :=
  match n with
  | 0%nat => Ok filtered
  | S n' =>
      let word := at_index words i in
      len ← length_of word;
      censor_for words (S i) n'
        (if negb (strict_eq_num len 4) then filtered ++ [word] else filtered)
  end.

Definition censor (words : list value) : result (list value) :=
  censor_for words 0 (length words) [].

End FirstOrder.

(** The loop of [reduce]:
    [for (let i = 0, length = arr.length; i < length; i++) {
       acc = reducer(acc, arr[i]);
     }] *)
Fixpoint reduce_for {B : Type} (reducer : B -> value -> result B)
  (arr : list value) (i n : nat) (acc : B) : result B :=
  match n with
  | 0%nat => Ok acc
  | S n' =>
      acc' ← reducer acc (at_index arr i);
      reduce_for reducer arr (S i) n' acc'
  end.

(** [const reduce = (reducer, initial, arr) => { let acc = initial; ...;
     return acc; };] *)
Definition reduce {B : Type} (reducer : B -> value -> result B) (initial : B)
  (arr : list value) : result B :=
  reduce_for reducer arr 0 (length arr) initial.

(** [const filter = (fn, arr) => reduce(
      (acc, curr) => fn(curr) ? acc.concat([curr]) : acc, [], arr);] *)
Definition filter (fn : value -> result bool) (arr : list value)
  : result (list value) :=
  reduce
    (fun acc curr =>
       keep ← fn curr;
       mret (if keep : bool then acc ++ [curr] else acc))
    [] arr.

(** [const censor = words => filter(word => word.length !== 4, words);] *)
Definition censor (words : list value) : result (list value) :=
  filter not_four_long words.

(** The property in the words of the notes: keep the words whose length
    is not 4. *)
Definition keeps (word : string) : bool :=
  negb (Nat.eqb (String.length word) 4).

(** *** Facts *)

Lemma at_index_middle (done todo : list value) (v : value) :
  at_index (done ++ v :: todo) (length done) = v.
Proof.
  unfold at_index. rewrite lookup_app_r by lia.
  replace (length done - length done)%nat with 0%nat by lia. reflexivity.
Qed.

Lemma reduce_as_fold {B : Type} (reducer : B -> value -> result B)
  (initial : B) (arr : list value) :
  reduce reducer initial arr
  = fold_left (fun acc a => acc ≫= fun b => reducer b a) arr (Ok initial).
Proof.
  unfold reduce.
  enough (H : forall todo done acc,
             reduce_for reducer (done ++ todo) (length done) (length todo) acc
             = fold_left (fun acc a => acc ≫= fun b => reducer b a) todo (Ok acc))
    by apply (H arr [] initial).
  induction todo as [|a todo IH]; intros done acc; [reflexivity|].
  simpl. rewrite at_index_middle.
  destruct (reducer acc a) as [acc'|e]; simpl.
  - replace (done ++ a :: todo) with ((done ++ [a]) ++ todo)
      by (rewrite <- app_assoc; reflexivity).
    replace (S (length done)) with (length (done ++ [a]))
      by (rewrite length_app; simpl; lia).
    apply IH.
  - clear. induction todo as [|b todo IH]; [reflexivity | exact IH].
Qed.

(** The library-based and the hand-written [filter] agree on every
    predicate and every array, exceptions included. *)
Lemma filter_agrees (fn : value -> result bool) (arr : list value) :
  Reduce.filter fn arr = filter fn arr.
Proof.
  unfold Reduce.filter, filter.
  rewrite reduce_as_fold.
  apply ArrayPrototype.reduce_fold_left. reflexivity.
Qed.

Lemma censor_for_reduce_for (words : list value) (n i : nat)
  (filtered : list value) :
  FirstOrder.censor_for words i n filtered
  = reduce_for
      (fun acc curr =>
         keep ← not_four_long curr;
         mret (if keep : bool then acc ++ [curr] else acc))
      words i n filtered.
Proof.
  revert i filtered.
  induction n as [|n IH]; intros i filtered; [reflexivity|].
  simpl. unfold not_four_long.
  destruct (length_of (at_index words i)) as [len|e]; simpl;
    [|reflexivity].
  rewrite IH. destruct (strict_eq_num len 4); reflexivity.
Qed.

Lemma censor_for_strings (todo : list string) (done filtered : list value) :
  FirstOrder.censor_for (done ++ (VStr <$> todo)) (length done) (length todo)
    filtered
  = Ok (filtered ++ (VStr <$> List.filter keeps todo)).
Proof.
  revert done filtered.
  induction todo as [|w todo IH]; intros done filtered.
  - simpl. rewrite app_nil_r. reflexivity.
  - cbn [fmap list_fmap length FirstOrder.censor_for].
    change (list_fmap string value VStr todo) with (VStr <$> todo).
    rewrite at_index_middle.
    cbn [length_of mbind result_bind strict_eq_num].
    replace (done ++ VStr w :: (VStr <$> todo))
      with ((done ++ [VStr w]) ++ (VStr <$> todo))
      by (rewrite <- app_assoc; reflexivity).
    replace (S (length done)) with (length (done ++ [VStr w]))
      by (rewrite length_app; simpl; lia).
    rewrite IH.
    cbn [List.filter]. unfold keeps at 2.
    replace (Z.of_nat (String.length w) =? 4)
      with (Nat.eqb (String.length w) 4)
      by (destruct (Nat.eqb_spec (String.length w) 4);
          destruct (Z.eqb_spec (Z.of_nat (String.length w)) 4); lia).
    destruct (Nat.eqb (String.length w) 4); simpl.
    + reflexivity.
    + rewrite <- app_assoc. reflexivity.
Qed.

(** C6.  The reduce-based [censor] refines the first-order one: on every
    array the two return the same outcome; on an array of strings both
    return exactly the words whose length is not 4, in their original
    order, and so does [filter] as the Reduce notes define it; on
    ['oops', 'gasp', 'shout', 'sun'] the result is ['shout', 'sun']. *)
Theorem censor_refines_first_order :
  (forall arr : list value, censor arr = FirstOrder.censor arr)
  /\ (forall words : list string,
        censor (VStr <$> words) = Ok (VStr <$> List.filter keeps words)
        /\ FirstOrder.censor (VStr <$> words)
           = Ok (VStr <$> List.filter keeps words)
        /\ Reduce.filter not_four_long (VStr <$> words)
           = Ok (VStr <$> List.filter keeps words))
  /\ censor [VStr "oops"; VStr "gasp"; VStr "shout"; VStr "sun"]
     = Ok [VStr "shout"; VStr "sun"]
  /\ FirstOrder.censor [VStr "oops"; VStr "gasp"; VStr "shout"; VStr "sun"]
     = Ok [VStr "shout"; VStr "sun"].
Proof.
  assert (Hrefine : forall arr, censor arr = FirstOrder.censor arr).
  { intros arr. unfold censor, filter, reduce, FirstOrder.censor.
    symmetry. apply censor_for_reduce_for. }
  assert (Hfirst : forall words : list string,
             FirstOrder.censor (VStr <$> words)
             = Ok (VStr <$> List.filter keeps words)).
  { intros words. unfold FirstOrder.censor.
    rewrite length_fmap. apply (censor_for_strings words [] []). }
  split; [exact Hrefine|]. split.
  - intros words. rewrite filter_agrees.
    fold (censor (VStr <$> words)). rewrite Hrefine, Hfirst. auto.
  - split; vm_compute; reflexivity.
Qed.

End Hof.

(** ** nocs-06-functors.js: functors *)
Module Functors.

(** Functions passed to [map] may print ([trace] does), so a function is a
    computation over the console: the lines printed so far go in, the
    result and the lines printed by then come out. *)
Definition io (L X : Type) : Type := list L -> X * list L.

Definition io_ret {L X : Type} (x : X) : io L X := fun out => (x, out).

Definition io_bind {L X Y : Type} (m : io L X) (k : X -> io L Y) : io L Y :=
  fun out => let (x, out') := m out in k x out'.

(** A function without effects, used where an effectful one is expected. *)
Definition pure {L X Y : Type} (f : X -> Y) : X -> io L Y :=
  fun x => io_ret (f x).

(** [const trace = x => { console.log(x); return x; };] *)
Definition trace {L : Type} (x : L) : io L L := fun out => (x, out ++ [x]).

(** The object [Identity(value)] builds.  Its methods are closures over
    [value]; the record keeps what they captured. *)
Record IdentityObj (A : Type) : Type := MkIdentity { captured : A }.

Arguments MkIdentity {A} captured.
Arguments captured {A} i.

(** [const Identity = value => ({ map: fn => Identity(fn(value)) });] *)
Definition Identity {A : Type} (value : A) : IdentityObj A :=
  MkIdentity value.

(** [u.map(fn)], that is [fn => Identity(fn(value))] with [value] taken
    from [u]. *)
Definition map {L A B : Type} (fn : A -> io L B) (u : IdentityObj A)
  : io L (IdentityObj B) :=
  io_bind (fn (captured u)) (fun y => io_ret (Identity y)).

(** [valueOf: () => value], which the later revisions of [Identity] add
    without touching [map]. *)
Definition valueOf {A : Type} (u : IdentityObj A) : A := captured u.

Module Demo.

(** [const u = Identity(2); const f = n => n + 1; const g = n => n * 2;] *)
Definition u : IdentityObj Z := Identity 2.
Definition f (n : Z) : Z := n + 1.
Definition g (n : Z) : Z := n * 2.

(** [const r1 = u.map(x => f(g(x)));] *)
Definition r1 : io Z (IdentityObj Z) := map (pure (fun x => f (g x))) u.

(** [const r2 = u.map(g).map(f);] *)
Definition r2 : io Z (IdentityObj Z) := io_bind (map (pure g) u) (map (pure f)).

(** [r1.map(trace); r2.map(trace);] run on an empty console: the two
    objects and what was printed. *)
Definition composition_law_run
  : (IdentityObj Z * IdentityObj Z) * list Z :=
  io_bind r1 (fun a =>
  io_bind r2 (fun b =>
  io_bind (map trace a) (fun _ =>
  io_bind (map trace b) (fun _ =>
  io_ret (a, b))))) [].

(** [u.map(trace); u.map(x => x).map(trace);] *)
Definition identity_law_run : list Z :=
  snd (io_bind (map trace u) (fun _ =>
       io_bind (map (pure (fun x => x)) u) (map trace)) []).

End Demo.

(** *** Facts *)

Lemma map_then_map {L A B C : Type} (f : B -> io L C) (g : A -> io L B)
  (u : IdentityObj A) (out : list L) :
  map (fun x => io_bind (g x) f) u out = io_bind (map g u) (map f) out.
Proof.
  unfold map, io_bind, io_ret.
  destruct (g (captured u) out) as [y out1]. simpl.
  destruct (f y out1) as [z out2]. reflexivity.
Qed.

(** C5.  [Identity] satisfies the functor laws.  Identity: mapping
    [x => x] gives an object holding the same value.  Composition: mapping
    [x => f(g(x))] gives the same object as mapping [g] and then [f]; this
    holds for functions that print as well, with the same lines printed in
    the same order.  For [v = 2], [f = n => n + 1], [g = n => n * 2] both
    sides hold 5, and tracing them prints 5 twice. *)
Theorem Identity_functor_laws :
  (forall (L A : Type) (v : A) (out : list L),
      map (pure (fun x => x)) (Identity v) out = (Identity v, out)
      /\ valueOf (fst (map (pure (fun x => x)) (Identity v) out)) = v)
  /\ (forall (L A B C : Type) (f : B -> C) (g : A -> B) (v : A)
        (out : list L),
      map (pure (fun x => f (g x))) (Identity v) out
      = io_bind (map (pure g) (Identity v)) (map (pure f)) out
      /\ valueOf (fst (map (pure (fun x => f (g x))) (Identity v) out))
         = f (g v))
  /\ (forall (L A B C : Type) (f : B -> io L C) (g : A -> io L B)
        (u : IdentityObj A) (out : list L),
      map (fun x => io_bind (g x) f) u out
      = io_bind (map g u) (map f) out)
  /\ Demo.composition_law_run = ((Identity 5, Identity 5), [5; 5])
  /\ Demo.identity_law_run = [2; 2].
Proof.
  split; [|split; [|split; [|split]]].
  - intros L A v out. split; reflexivity.
  - intros L A B C f g v out. split; reflexivity.
  - intros L A B C f g u out. apply map_then_map.
  - reflexivity.
  - reflexivity.
Qed.

End Functors.

(** ** The "Functional Mixins" notes *)
Module Mixins.

(** A closure variable [let isFlying = false] lives in a cell of the
    store; a closure over it records the cell's address. *)
Definition loc : Type := nat.

(** What a program run can observe and change: the cells of the closure
    variables created so far, and what the console has printed. *)
Record world : Type := World {
  cells : list bool;
  console : list value
}.

Definition set_cells (w : world) (c : list bool) : world :=
  World c (console w).

Definition set_console (w : world) (out : list value) : world :=
  World (cells w) out.

Definition empty_world : world := World [] [].

(** A logger is called for its effect on the console. *)
Definition logger_fn : Type := value -> list value -> list value.

(** [console.log.bind(console)] *)
Definition console_log : logger_fn := fun text out => out ++ [text].

(** The closures the notes store in objects. *)
Inductive method : Type :=
| Thunk (v : value)                    (* [() => v] *)
| Fly (isFlying : loc)                 (* [fly () { isFlying = true; return this; }] *)
| IsFlying (isFlying : loc)            (* [isFlying: () => isFlying] *)
| Land (isFlying : loc)                (* [land () { isFlying = false; return this; }] *)
| Log (logger : logger_fn)             (* [log (text) { logger(text) }] *)
| Get (config : gmap string value).    (* [get (key) { ... config[key] ... }] *)

Inductive prop : Type :=
| Data (v : value)
| Method (m : method).

(** An object is a finite map from property names to properties. *)
Abbreviation object := (gmap string prop).

(** What a call returns: a plain value, an object (a method that ends in
    [return this]), or a function inherited from [Object.prototype]. *)
Inductive returned : Type :=
| RValue (v : value)
| RObject (o : object)
| RBuiltin (name : string).

(** The names every object literal inherits from [Object.prototype]. *)
Definition Object_prototype : list string :=
  ["constructor"; "hasOwnProperty"; "isPrototypeOf"; "propertyIsEnumerable";
   "toLocaleString"; "toString"; "valueOf"; "__proto__";
   "__defineGetter__"; "__defineSetter__"; "__lookupGetter__";
   "__lookupSetter__"].

Definition inherited (key : string) : bool :=
  existsb (String.eqb key) Object_prototype.

(** [Object.assign({}, s1, ..., sn)]: the own properties of each source are
    copied onto a fresh object in turn, a later source overwriting an
    earlier one. *)
Definition Object_assign (sources : list object) : object :=
  fold_left (fun target source => source ∪ target) sources ∅.

(** [x == undefined] *)
Definition is_nullish (v : value) : bool :=
  match v with
  | VUndefined | VNull => true
  | _ => false
  end.

(** *** Calling a method

    [depth] is the room left on the call stack: a call needs one frame,
    and [get] needs a second one for [this.log(...)]. *)
Fixpoint invoke (depth : nat) (m : method) (this : object)
  (args : list value) (w : world) : result returned * world :=
  match depth with
  | 0%nat => (Err (RangeError "Maximum call stack size exceeded"), w)
  | S depth' =>
      match m with
      | Thunk v => (Ok (RValue v), w)
      | Fly l =>
          match cells w !! l with
          | Some _ => (Ok (RObject this), set_cells w (<[l := true]> (cells w)))
          | None => (Err (Unmodelled "closure variable without a cell"), w)
          end
      | IsFlying l =>
          match cells w !! l with
          | Some b => (Ok (RValue (VBool b)), w)
          | None => (Err (Unmodelled "closure variable without a cell"), w)
          end
      | Land l =>
          match cells w !! l with
          | Some _ => (Ok (RObject this), set_cells w (<[l := false]> (cells w)))
          | None => (Err (Unmodelled "closure variable without a cell"), w)
          end
      | Log logger =>
          let text := default VUndefined (args !! 0%nat) in
          (Ok (RValue VUndefined), set_console w (logger text (console w)))
      | Get config =>
          match args !! 0%nat with
          | Some (VStr key) =>
              let missing :=
                (* [this.log(`Missing config key: ${ key }`)] *)
                let text := VStr ("Missing config key: " ++ key) in
                match this !! "log" with
                | Some (Method log) => invoke depth' log this [text] w
                | Some (Data _) | None =>
                    (Err (TypeError "this.log is not a function"), w)
                end in
              match config !! key with
              | Some v => if is_nullish v then missing else (Ok (RValue v), w)
              | None =>
                  if inherited key then (Ok (RBuiltin key), w) else missing
              end
          | _ => (Err (Unmodelled "a key that is not a string"), w)
          end
      end
  end.

(** [this.name(...args)] *)
Definition call (depth : nat) (this : object) (name : string)
  (args : list value) (w : world) : result returned * world :=
  match this !! name with
  | Some (Method m) => invoke depth m this args w
  | Some (Data _) => (Err (TypeError (name ++ " is not a function")), w)
  | None =>
      if inherited name
      then (Err (Unmodelled "a method of Object.prototype"), w)
      else (Err (TypeError (name ++ " is not a function")), w)
  end.

(** [r.name(...args)] on what an earlier call returned. *)
Definition call_on (depth : nat) (r : result returned * world) (name : string)
  (args : list value) : result returned * world :=
  match r with
  | (Ok (RObject o), w) => call depth o name args w
  | (Ok (RValue VUndefined), w) =>
      (Err (TypeError "Cannot read properties of undefined"), w)
  | (Ok (RValue VNull), w) =>
      (Err (TypeError "Cannot read properties of null"), w)
  | (Ok _, w) => (Err (Unmodelled "a method of a primitive or a built-in"), w)
  | (Err e, w) => (Err e, w)
  end.

(** *** The mixins *)

Definition chocolate : object := {[ "hasChocolate" := Method (Thunk (VBool true)) ]}.
Definition caramelSwirl : object := {[ "hasCaramelSwirl" := Method (Thunk (VBool true)) ]}.
Definition pecans : object := {[ "hasPecans" := Method (Thunk (VBool true)) ]}.

(** [const iceCream = {...chocolate, ...caramelSwirl, ...pecans};] *)
Definition iceCream : object := Object_assign [chocolate; caramelSwirl; pecans].

(** [const flying = o => { let isFlying = false;
      return Object.assign({}, o, { fly () {...}, isFlying: ..., land () {...} });
    };]
    Each call creates its own [isFlying]. *)
Definition flying (o : object) (w : world) : object * world :=
  let isFlying := length (cells w) in
  (Object_assign
     [o; {[ "fly" := Method (Fly isFlying);
            "isFlying" := Method (IsFlying isFlying);
            "land" := Method (Land isFlying) ]}],
   set_cells w (cells w ++ [false])).

(** [const quacking = quack => o => Object.assign({}, o, { quack: () => quack });] *)
Definition quacking (quack : value) (o : object) : object :=
  Object_assign [o; {[ "quack" := Method (Thunk quack) ]}].

(** [const createDuck = quack => quacking(quack)(flying({}));] *)
Definition createDuck (quack : value) (w : world) : object * world :=
  let (o, w') := flying ∅ w in (quacking quack o, w').

(** A mixin without effects as a step of a pipeline that threads the
    world. *)
Definition threaded (mixin : object -> object)
  : object * world -> object * world :=
  fun s => (mixin s.1, s.2).

(** [const createDuckWithPipe = quack => pipe(flying, quacking(quack))({});] *)
Definition createDuckWithPipe (quack : value) (w : world) : object * world :=
  Reduce.pipe [(fun s => flying s.1 s.2); threaded (quacking quack)] (∅, w).

(** [const withLogging = logger => o => Object.assign({}, o, { log (text) { logger(text) } });] *)
Definition withLogging (logger : logger_fn) (o : object) : object :=
  Object_assign [o; {[ "log" := Method (Log logger) ]}].

(** [const addConfig = config => o => Object.assign({}, o, { get (key) {...} });] *)
Definition addConfig (config : gmap string value) (o : object) : object :=
  Object_assign [o; {[ "get" := Method (Get config) ]}].

(** The argument [{ initialConfig, logger }]. *)
Record options : Type := Options {
  initialConfig : gmap string value;
  logger : logger_fn
}.

(** [const withConfig = ({ initialConfig, logger }) => o =>
      pipe(withLogging(logger), addConfig(initialConfig))(o);] *)
Definition withConfig (opts : options) (o : object) : object :=
  Reduce.pipe [withLogging (logger opts); addConfig (initialConfig opts)] o.

(** [const createConfig = ({ initialConfig, logger }) =>
      withConfig({ initialConfig, logger })({});] *)
Definition createConfig (opts : options) : object :=
  withConfig opts ∅.

(** [const initialConfig = { host: 'localhost' };
     const logger = console.log.bind(console);
     const config = createConfig({initialConfig, logger});] *)
Definition config : object :=
  createConfig (Options {[ "host" := VStr "localhost" ]} console_log).


(** [const bird = flying({});] at the start of a run. *)
Definition bird : object := (flying ∅ empty_world).1.
Definition bird_world : world := (flying ∅ empty_world).2.

(** [const duck = createDuck('Quack!');] at the start of a run. *)
Definition duck : object := (createDuck (VStr "Quack!") empty_world).1.
Definition duck_world : world := (createDuck (VStr "Quack!") empty_world).2.

(** *** Facts *)

Lemma Object_assign_two (o source : object) :
  Object_assign [o; source] = source ∪ o.
Proof.
  unfold Object_assign. simpl. by rewrite (right_id_L ∅ (∪)).
Qed.

(** A mixin's own properties win ("last in wins"). *)
Lemma mixin_own (o source : object) (k : string) (p : prop) :
  source !! k = Some p -> Object_assign [o; source] !! k = Some p.
Proof.
  intros H. rewrite Object_assign_two. by apply lookup_union_Some_l.
Qed.

(** Everything else is copied from the object mixed into. *)
Lemma mixin_keeps (o source : object) (k : string) :
  source !! k = None -> Object_assign [o; source] !! k = o !! k.
Proof.
  intros H. rewrite Object_assign_two. by apply lookup_union_r.
Qed.

Lemma flying_methods (o : object) (w : world) :
  (flying o w).1 !! "fly" = Some (Method (Fly (length (cells w))))
  /\ (flying o w).1 !! "isFlying" = Some (Method (IsFlying (length (cells w))))
  /\ (flying o w).1 !! "land" = Some (Method (Land (length (cells w)))).
Proof.
  unfold flying. simpl. repeat split; by apply mixin_own.
Qed.

Lemma invoke_IsFlying (depth : nat) (this : object) (args : list value)
  (w : world) (l : loc) (b : bool) :
  cells w !! l = Some b ->
  invoke (S depth) (IsFlying l) this args w = (Ok (RValue (VBool b)), w).
Proof. intros H. simpl. by rewrite H. Qed.

Lemma invoke_Fly (depth : nat) (this : object) (args : list value)
  (w : world) (l : loc) (b : bool) :
  cells w !! l = Some b ->
  invoke (S depth) (Fly l) this args w
  = (Ok (RObject this), set_cells w (<[l := true]> (cells w))).
Proof. intros H. simpl. by rewrite H. Qed.

Lemma invoke_Land (depth : nat) (this : object) (args : list value)
  (w : world) (l : loc) (b : bool) :
  cells w !! l = Some b ->
  invoke (S depth) (Land l) this args w
  = (Ok (RObject this), set_cells w (<[l := false]> (cells w))).
Proof. intros H. simpl. by rewrite H. Qed.

Lemma flying_cell (w : world) :
  (cells w ++ [false]) !! length (cells w) = Some false.
Proof.
  rewrite lookup_app_r by lia.
  by replace (length (cells w) - length (cells w))%nat with 0%nat by lia.
Qed.

Lemma insert_fresh_cell (c : list bool) (old new : bool) :
  <[length c := new]> (c ++ [old]) = c ++ [new].
Proof.
  rewrite insert_app_r_alt by lia.
  by replace (length c - length c)%nat with 0%nat by lia.
Qed.

Lemma quacking_methods (quack : value) (o : object) (k : string) :
  quacking quack o !! "quack" = Some (Method (Thunk quack))
  /\ (k <> "quack" -> quacking quack o !! k = o !! k).
Proof.
  unfold quacking. split.
  - by apply mixin_own.
  - intros Hk. apply mixin_keeps. by apply lookup_singleton_ne.
Qed.

Lemma withConfig_unfold (opts : options) (o : object) :
  withConfig opts o = addConfig (initialConfig opts) (withLogging (logger opts) o).
Proof.
  unfold withConfig. by rewrite Reduce.pipe_left_to_right.
Qed.

Lemma createConfig_methods (opts : options) :
  createConfig opts !! "log" = Some (Method (Log (logger opts)))
  /\ createConfig opts !! "get" = Some (Method (Get (initialConfig opts))).
Proof.
  unfold createConfig. rewrite withConfig_unfold.
  unfold addConfig, withLogging. split.
  - rewrite mixin_keeps by done. by apply mixin_own.
  - by apply mixin_own.
Qed.

(** Against C2 as stated.  That no call changes what a later call
    observes fails on the notes' own example: [bird.isFlying()] is [false], [bird.fly()] returns
    the bird, and [bird.isFlying()] is then [true]. *)
Lemma isFlying_differs_after_fly :
  call 1 bird "isFlying" [] bird_world
  = (Ok (RValue (VBool false)), bird_world)
  /\ (call 1 bird "fly" [] bird_world).1 = Ok (RObject bird)
  /\ (call 1 bird "isFlying" [] (call 1 bird "fly" [] bird_world).2).1
     = Ok (RValue (VBool true))
  /\ (call 1 bird "isFlying" [] bird_world).1
     <> (call 1 bird "isFlying" [] (call 1 bird "fly" [] bird_world).2).1.
Proof.
  repeat split; try (vm_compute; reflexivity).
  vm_compute. discriminate.
Qed.

(** C2, amended.  The flying mixin keeps private state.  [flying(o)]
    creates a flag of its own, initially false: [isFlying()] returns
    [false] and changes nothing; [fly()] returns the receiver and sets the
    flag, after which [isFlying()] returns [true]; [land()] returns the
    receiver and clears it again.  Neither touches the console or the flag
    of an object created earlier.  In whatever later state, [isFlying()]
    after [fly()] is [true] and after [land()] is [false], and the calls
    [isFlying()] and [quack()] themselves leave the state as it was, so
    repeating them gives the same answer. *)
Theorem flying_keeps_private_state (o : object) (w : world) (depth : nat) :
  let bird := (flying o w).1 in
  let w0 := (flying o w).2 in
  let flag := length (cells w) in
  let w1 := set_cells w0 (<[flag := true]> (cells w0)) in
  call (S depth) bird "isFlying" [] w0 = (Ok (RValue (VBool false)), w0)
  /\ call (S depth) bird "fly" [] w0 = (Ok (RObject bird), w1)
  /\ call (S depth) bird "isFlying" [] w1 = (Ok (RValue (VBool true)), w1)
  /\ call (S depth) bird "land" [] w1 = (Ok (RObject bird), w0)
  /\ console w1 = console w
  /\ (forall l : loc, (l < flag)%nat -> cells w1 !! l = cells w !! l)
  /\ (forall later : world, (flag < length (cells later))%nat ->
        call_on (S depth) (call (S depth) bird "fly" [] later) "isFlying" []
        = (Ok (RValue (VBool true)),
           set_cells later (<[flag := true]> (cells later)))
        /\ call_on (S depth) (call (S depth) bird "land" [] later) "isFlying" []
           = (Ok (RValue (VBool false)),
              set_cells later (<[flag := false]> (cells later))))
  /\ (forall (later : world) (args : list value),
        (call (S depth) bird "isFlying" args later).2 = later)
  /\ (forall (quack : value) (later : world) (args : list value),
        call (S depth) (quacking quack bird) "quack" args later
        = (Ok (RValue quack), later)).
Proof.
  intros bird0 w0 flag w1.
  destruct (flying_methods o w) as (Hfly & His & Hland).
  fold bird0 in Hfly, His, Hland. fold flag in Hfly, His, Hland.
  assert (Hcells0 : cells w0 = cells w ++ [false]) by reflexivity.
  assert (Hcells1 : cells w1 = cells w ++ [true]).
  { unfold w1. simpl. apply insert_fresh_cell. }
  assert (Hread0 : cells w0 !! flag = Some false).
  { rewrite Hcells0. apply flying_cell. }
  assert (Hread1 : cells w1 !! flag = Some true).
  { rewrite Hcells1. unfold flag. rewrite lookup_app_r by lia.
    by replace (length (cells w) - length (cells w))%nat with 0%nat by lia. }
  split; [|split; [|split; [|split; [|split; [|split; [|split; [|split]]]]]]].
  - unfold call. rewrite His. by rewrite (invoke_IsFlying _ _ _ _ _ _ Hread0).
  - unfold call. rewrite Hfly. by rewrite (invoke_Fly _ _ _ _ _ _ Hread0).
  - unfold call. rewrite His. by rewrite (invoke_IsFlying _ _ _ _ _ _ Hread1).
  - unfold call. rewrite Hland. rewrite (invoke_Land _ _ _ _ _ _ Hread1).
    f_equal. unfold set_cells. rewrite Hcells1.
    unfold flag. by rewrite insert_fresh_cell.
  - reflexivity.
  - intros l Hl. rewrite Hcells1. by rewrite lookup_app_l by lia.
  - intros later Hlater.
    destruct (lookup_lt_is_Some_2 (cells later) flag Hlater) as [b Hb].
    unfold call. rewrite Hfly, Hland.
    rewrite (invoke_Fly _ _ _ _ _ _ Hb), (invoke_Land _ _ _ _ _ _ Hb).
    unfold call_on, call. rewrite His. split.
    + apply invoke_IsFlying. simpl. by apply list_lookup_insert_eq.
    + apply invoke_IsFlying. simpl. by apply list_lookup_insert_eq.
  - intros later args. unfold call. rewrite His. simpl.
    case_match; reflexivity.
  - intros quack later args. unfold call.
    destruct (quacking_methods quack bird0 "quack") as [-> _]. reflexivity.
Qed.

(** Against C3 as stated.  That nothing detects and reports a missing
    input fails on the notes' own example: [config.get('notThere')] has the logger print
    ['Missing config key: notThere'], while [config.get('host')] returns
    ['localhost'] and prints nothing. *)
Lemma config_get_reports_notThere :
  call 2 config "get" [VStr "notThere"] empty_world
  = (Ok (RValue VUndefined), World [] [VStr "Missing config key: notThere"])
  /\ call 2 config "get" [VStr "host"] empty_world
     = (Ok (RValue (VStr "localhost")), empty_world).
Proof.
  split; vm_compute; reflexivity.
Qed.

(** C3, amended.  The notes contain one failure-handling path.  On the
    object [createConfig] returns, [get(key)] branches on whether
    [config[key]] is [undefined] or [null]: if the key holds another value,
    [get] returns it and reports nothing; if the key is absent (and not a
    name inherited from [Object.prototype]) or holds [undefined] or
    [null], [get] passes ['Missing config key: ' + key] to the logger, once,
    and returns [undefined]. *)
Theorem createConfig_get_reports_missing_key (opts : options) (key : string)
  (w : world) (depth : nat) :
  let cfg := createConfig opts in
  let text := VStr ("Missing config key: " ++ key) in
  let reported := set_console w (logger opts text (console w)) in
  call (S (S depth)) cfg "get" [VStr key] w
  = match initialConfig opts !! key with
    | Some v =>
        if is_nullish v then (Ok (RValue VUndefined), reported)
        else (Ok (RValue v), w)
    | None =>
        if inherited key then (Ok (RBuiltin key), w)
        else (Ok (RValue VUndefined), reported)
    end
  /\ (forall v : value,
        initialConfig opts !! key = Some v -> is_nullish v = false ->
        call (S (S depth)) cfg "get" [VStr key] w = (Ok (RValue v), w))
  /\ (initialConfig opts !! key = None -> inherited key = false ->
        call (S (S depth)) cfg "get" [VStr key] w
        = (Ok (RValue VUndefined), reported)).
Proof.
  intros cfg text reported.
  destruct (createConfig_methods opts) as [Hlog Hget]. fold cfg in Hlog, Hget.
  assert (Hcall : call (S (S depth)) cfg "get" [VStr key] w
    = match initialConfig opts !! key with
      | Some v =>
          if is_nullish v then (Ok (RValue VUndefined), reported)
          else (Ok (RValue v), w)
      | None =>
          if inherited key then (Ok (RBuiltin key), w)
          else (Ok (RValue VUndefined), reported)
      end).
  { unfold call. rewrite Hget.
    cbn [invoke lookup list_lookup]. rewrite Hlog.
    destruct (initialConfig opts !! key) as [v|].
    - destruct (is_nullish v); reflexivity.
    - destruct (inherited key); reflexivity. }
  split; [exact Hcall|]. split.
  - intros v Hv Hnn. rewrite Hcall, Hv, Hnn. reflexivity.
  - intros Hnone Hni. rewrite Hcall, Hnone, Hni. reflexivity.
Qed.

(** Against C4 as stated.  That no operation applies one component to the
    output of another fails on the notes' own [createDuck]: the duck is [quacking]
    applied to what [flying] returned, it carries [fly] from one mixin
    and [quack] from the other, and [duck.fly().quack()] is ['Quack!']. *)
Lemma createDuck_mixes_flying_and_quacking :
  duck = quacking (VStr "Quack!") bird
  /\ duck !! "fly" = Some (Method (Fly 0%nat))
  /\ duck !! "quack" = Some (Method (Thunk (VStr "Quack!")))
  /\ call_on 1 (call 1 duck "fly" [] duck_world) "quack" []
     = (Ok (RValue (VStr "Quack!")), World [true] []).
Proof.
  split; [reflexivity|].
  repeat split; vm_compute; reflexivity.
Qed.

(** C4, amended.  The components of the notes do compose at run time.
    [createDuck(quack)] is [quacking(quack)] applied to the output of
    [flying({})], and [createDuckWithPipe] builds the same object through
    [pipe]; the duck carries [fly], [isFlying] and [land] from [flying] and
    [quack] from [quacking], and [duck.fly().quack()] returns [quack].
    [withConfig] pipes [withLogging] into [addConfig], and the object
    [createConfig] returns carries [log] from the one and [get] from the
    other. *)
Theorem mixins_compose (quack : value) (w : world) (opts : options)
  (o : object) (depth : nat) :
  let duck := (createDuck quack w).1 in
  let flag := length (cells w) in
  createDuck quack w = (quacking quack (flying ∅ w).1, (flying ∅ w).2)
  /\ createDuckWithPipe quack w = createDuck quack w
  /\ duck !! "fly" = Some (Method (Fly flag))
  /\ duck !! "isFlying" = Some (Method (IsFlying flag))
  /\ duck !! "land" = Some (Method (Land flag))
  /\ duck !! "quack" = Some (Method (Thunk quack))
  /\ (call_on (S depth) (call (S depth) duck "fly" [] (createDuck quack w).2)
        "quack" []).1
     = Ok (RValue quack)
  /\ withConfig opts o
     = addConfig (initialConfig opts) (withLogging (logger opts) o)
  /\ createConfig opts !! "log" = Some (Method (Log (logger opts)))
  /\ createConfig opts !! "get" = Some (Method (Get (initialConfig opts))).
Proof.
  intros duck0 flag.
  destruct (flying_methods ∅ w) as (Hfly & His & Hland).
  assert (Hduck : duck0 = quacking quack (flying ∅ w).1) by reflexivity.
  assert (Hkeep : forall k, k <> "quack" -> duck0 !! k = (flying ∅ w).1 !! k).
  { intros k Hk. rewrite Hduck. by apply quacking_methods. }
  assert (Hquack : duck0 !! "quack" = Some (Method (Thunk quack))).
  { rewrite Hduck. apply (quacking_methods quack _ "quack"). }
  assert (Hduckfly : duck0 !! "fly" = Some (Method (Fly flag))).
  { by rewrite Hkeep. }
  split; [reflexivity|]. split.
  { unfold createDuckWithPipe. by rewrite Reduce.pipe_left_to_right. }
  split; [exact Hduckfly|].
  split; [by rewrite Hkeep|].
  split; [by rewrite Hkeep|].
  split; [exact Hquack|]. split.
  { unfold call. rewrite Hduckfly.
    rewrite (invoke_Fly _ _ _ _ _ false) by apply flying_cell.
    unfold call_on, call. rewrite Hquack. reflexivity. }
  split; [apply withConfig_unfold|].
  apply createConfig_methods.
Qed.

End Mixins.

(** ** Pipelines: how [pipe] and [compose] chain, and the introduction's
    labelled [trace] *)
Module Pipeline.

(** [`${ value }`] for an integer. *)
Definition number_to_string (n : Z) : string :=
  NilZero.string_of_int (Z.to_int n).

Section Trace.

Context {A : Type}.

(** [`${ value }`], whatever the values of the pipeline are. *)
Variable to_string : A -> string.

(** A function of a pipeline that may print: the value and the console
    lines so far go in and come out. *)
Definition stage : Type := A * list string -> A * list string.

(** [const trace = label => value => {
      console.log(`${ label }: ${ value }`);
      return value;
    };] *)
Definition trace (label : string) : stage :=
  fun s => (s.1, s.2 ++ [(label ++ ": " ++ to_string s.1)%string]).

(** A function that prints nothing, as a stage. *)
Definition silent (f : A -> A) : stage :=
  fun s => (f s.1, s.2).

(** What a pipeline is made of: functions and traces. *)
Inductive step : Type :=
| Call (f : A -> A)
| Trace (label : string).

Definition stage_of (st : step) : stage :=
  match st with
  | Call f => silent f
  | Trace label => trace label
  end.

(** The pipeline with its traces taken out. *)
Fixpoint untraced (steps : list step) : list (A -> A) :=
  match steps with
  | [] => []
  | Call f :: rest => f :: untraced rest
  | Trace _ :: rest => untraced rest
  end.

(** The lines the traces print when the pipeline runs on [x]. *)
Fixpoint printed (steps : list step) (x : A) : list string :=
  match steps with
  | [] => []
  | Call f :: rest => printed rest (f x)
  | Trace label :: rest =>
      (label ++ ": " ++ to_string x)%string :: printed rest x
  end.

End Trace.

Definition g (n : Z) : Z := n + 1.
Definition f (n : Z) : Z := n * 2.

(** [const doStuffBetter = x => f(g(x));] *)
Definition doStuffBetter (x : Z) : Z := f (g x).

(** [const doStuffBetterWithPipe = pipe(g, trace('after g'), f, trace('after f'));] *)
Definition doStuffBetterWithPipe : stage :=
  Reduce.pipe
    (stage_of number_to_string
       <$> [Call g; Trace "after g"; Call f; Trace "after f"]).

(** *** Facts *)

Lemma left_to_right_app {A : Type} (fs gs : list (A -> A)) (x : A) :
  Reduce.left_to_right (fs ++ gs) x
  = Reduce.left_to_right gs (Reduce.left_to_right fs x).
Proof.
  revert x. induction fs as [|h fs IH]; intros x; simpl; auto.
Qed.

Lemma right_to_left_app {A : Type} (fs gs : list (A -> A)) (x : A) :
  Reduce.right_to_left (fs ++ gs) x
  = Reduce.right_to_left fs (Reduce.right_to_left gs x).
Proof.
  induction fs as [|h fs IH]; simpl; congruence.
Qed.

(** X1.  Pipelines chain: piping [fs] followed by [gs] is piping [fs] and
    then piping [gs] on the result, so a pipeline may itself be a stage of
    a pipeline; composing [fs] followed by [gs] is composing [gs] first and
    [fs] on its result. *)
Theorem pipe_compose_concat (A : Type) (fs gs : list (A -> A)) (x : A) :
  Reduce.pipe (fs ++ gs) x = Reduce.pipe gs (Reduce.pipe fs x)
  /\ Reduce.pipe [Reduce.pipe fs; Reduce.pipe gs] x = Reduce.pipe (fs ++ gs) x
  /\ Reduce.compose (fs ++ gs) x = Reduce.compose fs (Reduce.compose gs x)
  /\ Reduce.compose [Reduce.compose fs; Reduce.compose gs] x
     = Reduce.compose (fs ++ gs) x.
Proof.
  rewrite !Reduce.pipe_left_to_right, !Reduce.compose_right_to_left.
  rewrite left_to_right_app, right_to_left_app. simpl.
  rewrite !Reduce.pipe_left_to_right, !Reduce.compose_right_to_left.
  auto.
Qed.

Lemma traced_run {A : Type} (to_string : A -> string) (steps : list (step (A:=A)))
  (x : A) (out : list string) :
  Reduce.left_to_right (stage_of to_string <$> steps) (x, out)
  = (Reduce.left_to_right (untraced steps) x,
     out ++ printed to_string steps x).
Proof.
  revert x out.
  induction steps as [|[h|label] steps IH]; intros x out; simpl.
  - by rewrite app_nil_r.
  - unfold silent. simpl. apply IH.
  - unfold trace. simpl. rewrite IH. by rewrite <- app_assoc.
Qed.

Lemma printed_length {A : Type} (to_string : A -> string)
  (steps : list (step (A:=A))) (x : A) :
  length (printed to_string steps x)
  = length (List.filter (fun st => match st with Trace _ => true | Call _ => false end)
              steps).
Proof.
  revert x. induction steps as [|[h|label] steps IH]; intros x; simpl; auto.
Qed.

(** X2.  [trace] is transparent: a pipeline with traces anywhere in it
    returns what the pipeline without them returns; it leaves the lines
    already on the console in place and adds one line per trace, each
    showing the value at that point.  [doStuffBetterWithPipe(20)] returns
    [doStuffBetter(20) = 42] and prints ["after g: 21"], ["after f: 42"]. *)
Theorem trace_is_transparent :
  (forall (A : Type) (to_string : A -> string) (steps : list (step (A:=A)))
      (x : A) (out : list string),
      (Reduce.pipe (stage_of to_string <$> steps) (x, out)).1
      = Reduce.pipe (untraced steps) x
      /\ (Reduce.pipe (stage_of to_string <$> steps) (x, out)).2
         = out ++ printed to_string steps x
      /\ length (printed to_string steps x)
         = length (List.filter
                     (fun st => match st with Trace _ => true | Call _ => false end)
                     steps))
  /\ doStuffBetterWithPipe (20, [])
     = (doStuffBetter 20, ["after g: 21"; "after f: 42"])
  /\ doStuffBetter 20 = 42.
Proof.
  split.
  - intros A to_string steps x out.
    rewrite !Reduce.pipe_left_to_right, traced_run. simpl.
    split; [reflexivity|]. split; [reflexivity|]. apply printed_length.
  - split; vm_compute; reflexivity.
Qed.

End Pipeline.

(** ** The "Reduce" notes: [map] and [filter] written with [reduce] *)
Module MapFilter.

(** The argument of [acc.concat(x)]: an array is spliced in element by
    element, anything else is appended as one element. *)
Inductive concat_arg (B : Type) : Type :=
| Single (b : B)
| Spread (bs : list B).

Arguments Single {B} b.
Arguments Spread {B} bs.

Definition items {B : Type} (x : concat_arg B) : list B :=
  match x with
  | Single b => [b]
  | Spread bs => bs
  end.

(** [acc.concat(x)] *)
Definition concat {B : Type} (acc : list B) (x : concat_arg B) : list B :=
  acc ++ items x.

(** [const map = (fn, arr) => arr.reduce((acc, item, index, arr) => {
      return acc.concat(fn(item, index, arr));
    }, []);] *)
Definition map {A B : Type} (fn : A -> nat -> list A -> concat_arg B)
  (arr : list A) : list B :=
  ArrayPrototype.reduce
    (fun acc item index arr => concat acc (fn item index arr)) [] arr.

(** *** Facts *)

(** What [reduce] computes when the callback does look at the index and
    the array. *)
Lemma reduce_from_indexed {A B : Type}
  (callbackfn : B -> A -> nat -> list A -> B) (todo done : list A) (acc : B) :
  ArrayPrototype.reduce_from callbackfn (done ++ todo) (length done)
    (length todo) acc
  = fold_left (fun acc ka => callbackfn acc ka.2 ka.1 (done ++ todo))
      (imap (fun k a => ((length done + k)%nat, a)) todo) acc.
Proof.
  revert done acc.
  induction todo as [|a todo IH]; intros done acc; [reflexivity|].
  cbn [length ArrayPrototype.reduce_from].
  rewrite lookup_app_r by lia.
  replace (length done - length done)%nat with 0%nat by lia.
  cbn [lookup list_lookup].
  rewrite imap_cons. cbn [fold_left fst snd].
  replace (length done + 0)%nat with (length done) by lia.
  replace (done ++ a :: todo) with ((done ++ [a]) ++ todo)
    by (rewrite <- app_assoc; reflexivity).
  replace (S (length done)) with (length (done ++ [a]))
    by (rewrite length_app; simpl; lia).
  rewrite IH. f_equal. apply imap_ext. intros i x _. simpl.
  rewrite length_app. simpl. f_equal. lia.
Qed.

Lemma reduce_indexed {A B : Type}
  (callbackfn : B -> A -> nat -> list A -> B) (init : B) (O : list A) :
  ArrayPrototype.reduce callbackfn init O
  = fold_left (fun acc ka => callbackfn acc ka.2 ka.1 O)
      (imap (fun k a => (k, a)) O) init.
Proof.
  unfold ArrayPrototype.reduce.
  apply (reduce_from_indexed callbackfn O [] init).
Qed.

Lemma fold_concat {A B : Type} (h : nat * A -> concat_arg B)
  (l : list (nat * A)) (acc : list B) :
  fold_left (fun acc ka => concat acc (h ka)) l acc
  = acc ++ List.concat ((fun ka => items (h ka)) <$> l).
Proof.
  revert acc. induction l as [|ka l IH]; intros acc; simpl.
  - by rewrite app_nil_r.
  - rewrite IH. unfold concat. by rewrite <- app_assoc.
Qed.

Lemma map_spliced {A B : Type} (fn : A -> nat -> list A -> concat_arg B)
  (arr : list A) :
  map fn arr = List.concat (imap (fun i a => items (fn a i arr)) arr).
Proof.
  unfold map. rewrite reduce_indexed.
  rewrite (fold_concat (fun ka => fn ka.2 ka.1 arr)). simpl.
  f_equal. rewrite fmap_imap. reflexivity.
Qed.

Lemma concat_singletons {A B : Type} (h : nat -> A -> B) (l : list A) :
  List.concat (imap (fun i a => [h i a]) l) = imap h l.
Proof.
  revert h. induction l as [|a l IH]; intros h; [reflexivity|].
  rewrite !imap_cons. simpl. f_equal. apply (IH (h ∘ S)).
Qed.

Lemma concat_pairs_length {A : Type} (l : list A) :
  length (List.concat ((fun a => [a; a]) <$> l)) = (2 * length l)%nat.
Proof.
  induction l as [|a l IH]; [reflexivity|].
  rewrite fmap_cons. cbn [List.concat app length]. rewrite IH. lia.
Qed.

(** X3.  [map] written with [reduce] and [concat] passes the item, its
    index and the array to [fn] and splices the results in order.  When
    [fn] returns no array this is the usual map: one result per element,
    in place.  When [fn] returns an array its elements are spliced in (the
    array is flattened one level), so the result can be longer than the
    input: doubling each item into a pair doubles the length. *)
Theorem map_splices_results :
  (forall (A B : Type) (fn : A -> nat -> list A -> concat_arg B) (arr : list A),
      map fn arr = List.concat (imap (fun i a => items (fn a i arr)) arr))
  /\ (forall (A B : Type) (h : nat -> A -> B) (arr : list A),
        map (fun a i _ => Single (h i a)) arr = imap h arr
        /\ length (map (fun a i _ => Single (h i a)) arr) = length arr)
  /\ (forall (A B : Type) (h : A -> B) (arr : list A),
        map (fun a _ _ => Single (h a)) arr = h <$> arr)
  /\ (forall (A : Type) (arr : list A),
        map (fun a _ _ => Spread [a; a]) arr
        = List.concat ((fun a => [a; a]) <$> arr)
        /\ length (map (fun a _ _ => Spread [a; a]) arr)
           = (2 * length arr)%nat)
  /\ map (fun a _ _ => Spread ([] : list Z)) [1; 2; 3] = [].
Proof.
  split; [intros; apply map_spliced|].
  assert (Hsingle : forall (A B : Type) (h : nat -> A -> B) (arr : list A),
             map (fun a i _ => Single (h i a)) arr = imap h arr).
  { intros A B h arr. rewrite map_spliced. simpl. apply concat_singletons. }
  assert (Hpairs : forall (A : Type) (arr : list A),
             map (fun a _ _ => Spread [a; a]) arr
             = List.concat ((fun a => [a; a]) <$> arr)).
  { intros A arr. rewrite map_spliced. simpl. f_equal.
    rewrite <- (imap_const (fun a => [a; a]) arr). reflexivity. }
  split; [|split; [|split]].
  - intros A B h arr. rewrite Hsingle. split; [reflexivity|].
    apply length_imap.
  - intros A B h arr. rewrite (Hsingle A B (fun _ => h)). apply imap_const.
  - intros A arr. rewrite Hpairs. split; [reflexivity|].
    apply concat_pairs_length.
  - vm_compute. reflexivity.
Qed.

Lemma fold_Err {A B : Type} (f : B -> A -> result B) (l : list A) (e : error) :
  fold_left (fun acc a => acc ≫= fun b => f b a) l (Err e) = Err e.
Proof.
  induction l as [|a l IH]; [reflexivity | exact IH].
Qed.

Lemma filter_as_fold {A : Type} (fn : A -> result bool) (arr : list A) :
  Reduce.filter fn arr
  = fold_left
      (fun acc item => acc ≫= fun newArr =>
         keep ← fn item;
         mret (if keep : bool then newArr ++ [item] else newArr))
      arr (Ok []).
Proof.
  unfold Reduce.filter. apply ArrayPrototype.reduce_fold_left. reflexivity.
Qed.

Lemma filter_fold_total {A : Type} (p : A -> bool) (arr acc : list A) :
  fold_left
    (fun acc item => acc ≫= fun newArr =>
       keep ← Ok (p item);
       mret (if keep : bool then newArr ++ [item] else newArr))
    arr (Ok acc)
  = Ok (acc ++ List.filter p arr).
Proof.
  revert acc. induction arr as [|a arr IH]; intros acc; simpl.
  - by rewrite app_nil_r.
  - change (Ok (p a) ≫= _) with
      (Ok (if p a then acc ++ [a] else acc) : result (list A)).
    rewrite IH. destruct (p a); [|reflexivity].
    by rewrite <- app_assoc.
Qed.

(** X4.  With a predicate that does not throw, [filter], in the version of
    the Reduce notes and in the version of the higher-order-function
    notes, returns exactly the items the predicate accepts, in their
    original order; so filtering a concatenation is concatenating the
    filtered parts, and filtering twice with the same predicate changes
    nothing more. *)
Theorem filter_keeps_accepted :
  (forall (A : Type) (p : A -> bool) (arr : list A),
      Reduce.filter (fun a => Ok (p a)) arr = Ok (List.filter p arr))
  /\ (forall (p : value -> bool) (arr : list value),
        Hof.filter (fun a => Ok (p a)) arr = Ok (List.filter p arr))
  /\ (forall (A : Type) (p : A -> bool) (xs ys : list A),
        Reduce.filter (fun a => Ok (p a)) (xs ++ ys)
        = Ok (List.filter p xs ++ List.filter p ys))
  /\ (forall (A : Type) (p : A -> bool) (arr : list A),
        Reduce.filter (fun a => Ok (p a)) arr
          ≫= Reduce.filter (fun a => Ok (p a))
        = Reduce.filter (fun a => Ok (p a)) arr).
Proof.
  assert (H : forall (A : Type) (p : A -> bool) (arr : list A),
             Reduce.filter (fun a => Ok (p a)) arr = Ok (List.filter p arr)).
  { intros A p arr. rewrite filter_as_fold.
    apply (filter_fold_total p arr []). }
  split; [exact H|]. split; [|split].
  - intros p arr. rewrite <- Hof.filter_agrees. apply H.
  - intros A p xs ys. rewrite H. by rewrite List.filter_app.
  - intros A p arr. rewrite H. simpl.
    change (Reduce.filter (fun a => Ok (p a)) (List.filter p arr)
            = Ok (List.filter p arr)).
    rewrite H. f_equal.
    induction arr as [|a arr IH]; [reflexivity|].
    simpl. destruct (p a) eqn:E; simpl; [rewrite E|]; congruence.
Qed.

Lemma filter_first_error (fn : value -> result bool)
  (before : list value) (a : value) (after : list value) (e : error) :
  Forall (fun b => exists keep, fn b = Ok keep) before ->
  fn a = Err e ->
  Reduce.filter fn (before ++ a :: after) = Err e
  /\ Hof.filter fn (before ++ a :: after) = Err e.
Proof.
  intros Hbefore Ha.
  assert (H : Reduce.filter fn (before ++ a :: after) = Err e).
  { rewrite filter_as_fold, fold_left_app.
    assert (Hpre : forall acc, exists kept,
               fold_left
                 (fun acc item => acc ≫= fun newArr =>
                    keep ← fn item;
                    mret (if keep : bool then newArr ++ [item] else newArr))
                 before (Ok acc) = Ok kept).
    { induction Hbefore as [|b before [keep Hb] _ IH]; intros acc; simpl.
      - by exists acc.
      - rewrite Hb. simpl. apply IH. }
    destruct (Hpre []) as [kept ->]. simpl. rewrite Ha. simpl.
    apply (fold_Err
             (fun newArr item =>
                keep ← fn item;
                mret (if keep : bool then newArr ++ [item] else newArr))). }
  split; [exact H|]. by rewrite <- Hof.filter_agrees.
Qed.

(** X5.  A predicate that throws makes [filter] throw: if the predicate
    returns normally on the items before [a] and throws [e] on [a], both
    versions of [filter] throw [e], whatever follows [a]. *)
Theorem filter_rethrows_first_error (fn : value -> result bool)
  (before : list value) (a : value) (after : list value) (e : error) :
  Forall (fun b => exists keep, fn b = Ok keep) before ->
  fn a = Err e ->
  Reduce.filter fn (before ++ a :: after) = Err e
  /\ Hof.filter fn (before ++ a :: after) = Err e.
Proof.
  intros Hbefore Ha. by apply filter_first_error.
Qed.

Lemma filter_rethrows_first_error_witness :
  Reduce.filter Hof.not_four_long [VStr "oops"; VUndefined; VStr "sun"]
  = Err (TypeError "Cannot read properties of undefined")
  /\ Hof.filter Hof.not_four_long [VStr "oops"; VUndefined; VStr "sun"]
     = Err (TypeError "Cannot read properties of undefined").
Proof.
  apply (filter_rethrows_first_error Hof.not_four_long
           [VStr "oops"] VUndefined [VStr "sun"]).
  - constructor; [|constructor]. exists false. reflexivity.
  - reflexivity.
Defined.

End MapFilter.

(** ** The "Reduce" notes: summing, plainly and Redux-style *)
Module Redux.

(** [const summingReducer = (acc, n) => acc + n;], the first reducer of
    the notes. *)
Definition summingReducer (acc n : value) : result value := js_add acc n.

(** [arr.reduce(summingReducer, 0)] *)
Definition sum_with_reduce (arr : list value) : result value :=
  ArrayPrototype.reduce (throwing summingReducer) (Ok (VNum 0)) arr.

(** [reduce((acc, curr) => acc + curr, 0, arr)] with the hand-written
    [reduce] of the higher-order-function notes. *)
Definition sum_with_hof_reduce (arr : list value) : result value :=
  Hof.reduce (fun acc curr => js_add acc curr) (VNum 0) arr.

(** The sum of a list of integers, and the sum of their absolute values:
    while the latter stays within 2^53, no partial sum in any order leaves
    the range in which doubles add exactly. *)
Definition total (arr : list Z) : Z := foldr Z.add 0 arr.

Definition magnitude (arr : list Z) : Z :=
  foldr (fun n m => Z.abs n + m) 0 arr.

(** An action as a store would receive it: an ADD_VALUE action with a
    numeric payload, or any other object. *)
Definition dispatched (a : Z + list (string * value)) : value :=
  match a with
  | inl v => Reduce.add_value (VNum v)
  | inr props => VObj props
  end.

(** The sum of the ADD_VALUE payloads. *)
Fixpoint added (l : list (Z + list (string * value))) : Z :=
  match l with
  | [] => 0
  | inl v :: rest => v + added rest
  | inr _ :: rest => added rest
  end.

(** The sum of the absolute values of the ADD_VALUE payloads. *)
Fixpoint added_magnitude (l : list (Z + list (string * value))) : Z :=
  match l with
  | [] => 0
  | inl v :: rest => Z.abs v + added_magnitude rest
  | inr _ :: rest => added_magnitude rest
  end.

Definition not_add_value (a : Z + list (string * value)) : Prop :=
  match a with
  | inl _ => True
  | inr props => own_property props "type" <> VStr Reduce.ADD_VALUE
  end.

(** [{ type: 'ADD_VALUE' }]: the payload is missing. *)
Definition without_payload : value := VObj [("type", VStr "ADD_VALUE")].

(** [{ type: 'ADD_VALUE', payload: null }] *)
Definition null_payload : value :=
  VObj [("type", VStr "ADD_VALUE"); ("payload", VNull)].

Definition is_TypeError {A : Type} (r : result A) : Prop :=
  exists msg, r = Err (TypeError msg).

(** A number: finite or not. *)
Definition is_number (v : value) : Prop :=
  match v with
  | VNum _ | VNonFinite _ => True
  | _ => False
  end.

(** *** Facts *)

Lemma reduce_actions_as_fold (actions : list value) :
  Reduce.reduce_actions actions
  = fold_left (fun acc a => acc ≫= fun s => Reduce.summingReducer s a)
      actions (Ok (VNum 0)).
Proof.
  unfold Reduce.reduce_actions.
  apply ArrayPrototype.reduce_fold_left. reflexivity.
Qed.

Lemma number_add_is_number (a b : value) :
  is_number a -> is_number b -> is_number (number_add a b).
Proof.
  destruct a as [| | |m|x| |]; try contradiction;
    destruct b as [| | |n|y| |]; try contradiction; intros _ _.
  - unfold number_add, round_to_double. cbn zeta.
    repeat case_match; exact I.
  - destruct y; exact I.
  - destruct x; exact I.
  - destruct x, y; exact I.
Qed.

Lemma reducer_adds_number (s : value) (v : Z) :
  is_number s ->
  Reduce.summingReducer s (Reduce.add_value (VNum v))
  = Ok (number_add s (VNum v)).
Proof.
  destruct s as [| | |m|x| |]; try contradiction; intros _; reflexivity.
Qed.

Lemma is_number_defined (s : value) : is_number s -> s <> VUndefined.
Proof.
  destruct s; try contradiction; discriminate.
Qed.

(** Well-formed actions never make the reducer throw: from a number it
    goes to a number. *)
Lemma fold_dispatched_number (l : list (Z + list (string * value)))
  (s : value) :
  Forall not_add_value l ->
  is_number s ->
  exists s', is_number s'
    /\ fold_left (fun acc a => acc ≫= fun s => Reduce.summingReducer s a)
         (dispatched <$> l) (Ok s)
       = Ok s'.
Proof.
  intros Hl. revert s.
  induction Hl as [|[v|props] l Ha _ IH]; intros s Hs.
  - exists s. split; [exact Hs | reflexivity].
  - rewrite fmap_cons. cbn [fold_left dispatched].
    change (Ok s ≫= _)
      with (Reduce.summingReducer s (Reduce.add_value (VNum v))).
    rewrite (reducer_adds_number s v Hs).
    apply IH. by apply number_add_is_number.
  - rewrite fmap_cons. cbn [fold_left dispatched].
    change (Ok s ≫= _) with (Reduce.summingReducer s (VObj props)).
    rewrite (Reduce.summingReducer_other s props (is_number_defined s Hs) Ha).
    by apply IH.
Qed.

(** Within the exact range they add up to the sum of the payloads. *)
Lemma fold_dispatched (l : list (Z + list (string * value))) (s : Z) :
  Forall not_add_value l ->
  Z.abs s + added_magnitude l <= two53 ->
  fold_left (fun acc a => acc ≫= fun s => Reduce.summingReducer s a)
    (dispatched <$> l) (Ok (VNum s))
  = Ok (VNum (s + added l)).
Proof.
  intros Hl. revert s.
  induction Hl as [|[v|props] l Ha _ IH]; intros s Hrange.
  - simpl. f_equal. f_equal. lia.
  - rewrite fmap_cons. cbn [fold_left added added_magnitude dispatched] in *.
    change (Ok (VNum s) ≫= _)
      with (Reduce.summingReducer (VNum s) (Reduce.add_value (VNum v))).
    rewrite (reducer_adds_number (VNum s) v I).
    cbn [number_add].
    assert (Hmag : 0 <= added_magnitude l).
    { clear. induction l as [|[w|q] l IHl]; simpl; lia. }
    rewrite Reduce.round_to_double_exact by lia.
    rewrite IH by lia. f_equal. f_equal. lia.
  - rewrite fmap_cons. cbn [fold_left added added_magnitude dispatched] in *.
    change (Ok (VNum s) ≫= _)
      with (Reduce.summingReducer (VNum s) (VObj props)).
    rewrite (Reduce.summingReducer_other (VNum s) props) by (done || exact Ha).
    by apply IH.
Qed.

Lemma magnitude_nonneg (arr : list Z) : 0 <= magnitude arr.
Proof.
  unfold magnitude. induction arr as [|n arr IH]; simpl; lia.
Qed.

Lemma fold_js_add (arr : list Z) (acc : Z) :
  Z.abs acc + magnitude arr <= two53 ->
  fold_left (fun acc a => acc ≫= fun b => js_add b a) (VNum <$> arr)
    (Ok (VNum acc))
  = Ok (VNum (acc + total arr)).
Proof.
  revert acc. induction arr as [|n arr IH]; intros acc Hrange.
  - simpl. unfold total. simpl. f_equal. f_equal. lia.
  - rewrite fmap_cons. cbn [fold_left].
    change (Ok (VNum acc) ≫= _)
      with (Ok (round_to_double (acc + n)) : result value).
    pose proof (magnitude_nonneg arr) as Hmag.
    unfold magnitude in Hrange. simpl in Hrange. fold (magnitude arr) in Hrange.
    rewrite Reduce.round_to_double_exact by lia.
    rewrite IH by lia. unfold total. simpl. f_equal. f_equal. lia.
Qed.

Lemma sum_with_reduce_exact (arr : list Z) :
  magnitude arr <= two53 ->
  sum_with_reduce (VNum <$> arr) = Ok (VNum (total arr)).
Proof.
  intros Hrange. unfold sum_with_reduce.
  rewrite (ArrayPrototype.reduce_fold_left _
             (fun acc a => acc ≫= fun b => summingReducer b a))
    by reflexivity.
  unfold summingReducer. rewrite fold_js_add by (simpl; lia).
  f_equal.
Qed.

Lemma magnitude_Permutation (xs ys : list Z) :
  Permutation xs ys -> magnitude xs = magnitude ys /\ total xs = total ys.
Proof.
  unfold magnitude, total.
  induction 1; simpl; lia.
Qed.

Lemma total_app (xs ys : list Z) : total (xs ++ ys) = total xs + total ys.
Proof.
  unfold total. induction xs as [|x xs IH]; simpl; [reflexivity | lia].
Qed.

(** X6.  While the absolute values of the items add up to at most 2^53,
    reducing an array of integers with a summing reducer gives the exact
    sum of the array, with [Array.prototype.reduce] and with the
    hand-written [reduce] alike; so the result is the same for every
    reordering of the items, and for a concatenation it is the sum of the
    two totals.  Past that range the order matters: [[2^53, 1, 1]] sums
    to 2^53, [[1, 1, 2^53]] to 2^53 + 2. *)
Theorem summing_gives_total (arr : list Z) :
  magnitude arr <= 2 ^ 53 ->
  sum_with_reduce (VNum <$> arr) = Ok (VNum (total arr))
  /\ sum_with_hof_reduce (VNum <$> arr) = Ok (VNum (total arr))
  /\ (forall reordered : list Z,
        Permutation arr reordered ->
        sum_with_reduce (VNum <$> reordered) = sum_with_reduce (VNum <$> arr))
  /\ (forall xs ys : list Z,
        arr = xs ++ ys ->
        sum_with_reduce (VNum <$> arr) = Ok (VNum (total xs + total ys)))
  /\ sum_with_reduce [VNum (2 ^ 53); VNum 1; VNum 1] = Ok (VNum (2 ^ 53))
  /\ sum_with_reduce [VNum 1; VNum 1; VNum (2 ^ 53)] = Ok (VNum (2 ^ 53 + 2)).
Proof.
  intros Hrange.
  split; [by apply sum_with_reduce_exact|]. split.
  { unfold sum_with_hof_reduce. rewrite Hof.reduce_as_fold.
    rewrite fold_js_add by (simpl; unfold two53; lia). f_equal. }
  split.
  { intros reordered Hperm.
    destruct (magnitude_Permutation arr reordered Hperm) as [Hmag Htot].
    rewrite !sum_with_reduce_exact by (unfold two53; lia).
    by rewrite Htot. }
  split.
  { intros xs ys ->. rewrite sum_with_reduce_exact by exact Hrange.
    by rewrite total_app. }
  split; vm_compute; reflexivity.
Qed.

Lemma summing_gives_total_witness :
  sum_with_reduce [VNum 2; VNum 4; VNum 6] = Ok (VNum 12).
Proof.
  apply (summing_gives_total [2; 4; 6]). vm_compute. discriminate.
Defined.

(** X7.  Reducing actions as a store would dispatch them: when every
    action is an ADD_VALUE action with an integer payload or an object of
    another type, and the absolute values of the payloads add up to at
    most 2^53, [actions.reduce(summingReducer, 0)] is the exact sum of the
    ADD_VALUE payloads; the other actions leave the state alone. *)
Theorem reduce_actions_adds_payloads (l : list (Z + list (string * value))) :
  Forall not_add_value l ->
  added_magnitude l <= 2 ^ 53 ->
  Reduce.reduce_actions (dispatched <$> l) = Ok (VNum (added l)).
Proof.
  intros Hl Hrange. rewrite reduce_actions_as_fold.
  rewrite (fold_dispatched l 0 Hl) by (simpl; unfold two53; lia). f_equal.
Qed.

Lemma reduce_actions_adds_payloads_witness :
  Reduce.reduce_actions
    [Reduce.add_value (VNum 1); VObj [("type", VStr "RESET")]; VObj [];
     Reduce.add_value (VNum 2)]
  = Ok (VNum 3).
Proof.
  apply (reduce_actions_adds_payloads
           [inl 1; inr [("type", VStr "RESET")]; inr []; inl 2]).
  - repeat constructor; simpl; discriminate.
  - vm_compute. discriminate.
Defined.

(** X8.  A malformed action makes the reducer throw a TypeError: an
    ADD_VALUE action whose payload is missing or [null] (it reads
    [payload.value]), and the action [null] (it destructures the action),
    whatever the state.  In a reduce over actions, the first such action
    after well-formed ones makes the whole reduce throw, whatever
    follows. *)
Theorem reducer_throws_on_malformed_action :
  (forall s : value,
      is_TypeError (Reduce.summingReducer s without_payload)
      /\ is_TypeError (Reduce.summingReducer s null_payload)
      /\ is_TypeError (Reduce.summingReducer s VNull))
  /\ (forall (l : list (Z + list (string * value))) (bad : value)
        (after : list value),
        Forall not_add_value l ->
        bad = without_payload \/ bad = null_payload \/ bad = VNull ->
        is_TypeError
          (Reduce.reduce_actions ((dispatched <$> l) ++ bad :: after))).
Proof.
  assert (Hbad : forall (s bad : value),
             bad = without_payload \/ bad = null_payload \/ bad = VNull ->
             is_TypeError (Reduce.summingReducer s bad)).
  { intros s bad [->|[->| ->]]; unfold Reduce.summingReducer;
      destruct s; simpl; eexists; reflexivity. }
  split.
  - intros s. repeat split; apply Hbad; auto.
  - intros l bad after Hl Hcase.
    rewrite reduce_actions_as_fold, fold_left_app.
    destruct (fold_dispatched_number l (VNum 0) Hl I) as (s' & _ & ->).
    cbn [fold_left].
    change (Ok s' ≫= _) with (Reduce.summingReducer s' bad).
    destruct (Hbad s' bad Hcase) as [msg ->].
    exists msg.
    apply (MapFilter.fold_Err (fun s a => Reduce.summingReducer s a)).
Qed.

End Redux.

(** ** Array.prototype.map and Array.prototype.filter *)
Module ArrayMethods.

Section Loops.

Context {A B : Type}.

Variable O : list A.

(** The loop of [O.map(callbackfn)]: [k] is the next index, [n] the number
    of indices left, [out] the elements stored so far. *)
Fixpoint map_from (callbackfn : A -> nat -> list A -> B) (k n : nat)
  (out : list B) : list B :=
  match n with
  | 0%nat => out
  | S n' =>
      map_from callbackfn (S k) n'
        (match O !! k with
         | Some kValue => out ++ [callbackfn kValue k O]
         | None => out
         end)
  end.

(** The loop of [O.filter(callbackfn)]. *)
Fixpoint filter_from (callbackfn : A -> nat -> list A -> bool) (k n : nat)
  (out : list A) : list A :=
  match n with
  | 0%nat => out
  | S n' =>
      filter_from callbackfn (S k) n'
        (match O !! k with
         | Some kValue => if callbackfn kValue k O then out ++ [kValue] else out
         | None => out
         end)
  end.

End Loops.

(** [O.map(callbackfn)] *)
Definition map {A B : Type} (callbackfn : A -> nat -> list A -> B)
  (O : list A) : list B :=
  map_from O callbackfn 0 (length O) [].

(** [O.filter(callbackfn)] *)
Definition filter {A : Type} (callbackfn : A -> nat -> list A -> bool)
  (O : list A) : list A :=
  filter_from O callbackfn 0 (length O) [].

(** A callback written with one parameter. *)
Definition unary {A B : Type} (f : A -> B) : A -> nat -> list A -> B :=
  fun a _ _ => f a.

(** *** Facts *)

Lemma map_from_app {A B : Type} (f : A -> B) (todo done : list A)
  (out : list B) :
  map_from (done ++ todo) (unary f) (length done) (length todo) out
  = out ++ (f <$> todo).
Proof.
  revert done out.
  induction todo as [|a todo IH]; intros done out.
  - simpl. by rewrite app_nil_r.
  - cbn [length map_from]. rewrite lookup_app_r by lia.
    replace (length done - length done)%nat with 0%nat by lia.
    cbn [lookup list_lookup].
    replace (done ++ a :: todo) with ((done ++ [a]) ++ todo)
      by (rewrite <- app_assoc; reflexivity).
    replace (S (length done)) with (length (done ++ [a]))
      by (rewrite length_app; simpl; lia).
    rewrite IH. unfold unary. rewrite fmap_cons.
    by rewrite <- app_assoc.
Qed.

Lemma map_unary {A B : Type} (f : A -> B) (O : list A) :
  map (unary f) O = f <$> O.
Proof.
  unfold map. apply (map_from_app f O [] []).
Qed.

Lemma filter_from_app {A : Type} (p : A -> bool) (todo done out : list A) :
  filter_from (done ++ todo) (unary p) (length done) (length todo) out
  = out ++ List.filter p todo.
Proof.
  revert done out.
  induction todo as [|a todo IH]; intros done out.
  - simpl. by rewrite app_nil_r.
  - cbn [length filter_from]. rewrite lookup_app_r by lia.
    replace (length done - length done)%nat with 0%nat by lia.
    cbn [lookup list_lookup].
    replace (done ++ a :: todo) with ((done ++ [a]) ++ todo)
      by (rewrite <- app_assoc; reflexivity).
    replace (S (length done)) with (length (done ++ [a]))
      by (rewrite length_app; simpl; lia).
    rewrite IH. unfold unary. simpl.
    destruct (p a); [|reflexivity]. by rewrite <- app_assoc.
Qed.

Lemma filter_unary {A : Type} (p : A -> bool) (O : list A) :
  filter (unary p) O = List.filter p O.
Proof.
  unfold filter. apply (filter_from_app p O [] []).
Qed.

End ArrayMethods.

(** ** nocs-04-hof.js: [startsWithS], [reduce] and [highpass] *)
Module HofMore.

(** [word.startsWith(search)]: a method of strings only.  On [undefined]
    and [null] the property read throws; on any other value that is not a
    string there is no function to call. *)
Definition startsWith (word : value) (search : string) : result bool :=
  match word with
  | VStr s => Ok (String.prefix search s)
  | VUndefined => Err (TypeError "Cannot read properties of undefined")
  | VNull => Err (TypeError "Cannot read properties of null")
  | VBool _ | VNum _ | VNonFinite _ | VObj _ =>
      Err (TypeError "word.startsWith is not a function")
  end.

Module FirstOrder.

(** The loop of the first-order [startsWithS]:
    [for (let i = 0, { length } = words; i < length; i++) {
       const word = words[i];
       if (word.startsWith("s")) filtered.push(word);
     }] *)
Fixpoint startsWithS_for (words : list value) (i n : nat)
  (filtered : list value) : result (list value) :=
  match n with
  | 0%nat => Ok filtered
  | S n' =>
      let word := Hof.at_index words i in
      keep ← startsWith word "s";
      startsWithS_for words (S i) n'
        (if keep : bool then filtered ++ [word] else filtered)
  end.

Definition startsWithS (words : list value) : result (list value) :=
  startsWithS_for words 0 (length words) [].

End FirstOrder.

(** [const startsWithS = words => filter(word => word.startsWith('s'), words);] *)
Definition startsWithS (words : list value) : result (list value) :=
  Hof.filter (fun word => startsWith word "s") words.

(** The first character is an [s]. *)
Definition begins_with_s (word : string) : bool :=
  match word with
  | String c _ => Ascii.eqb c "s"%char
  | EmptyString => false
  end.

(** [const highpass = cutoff => n => n >= cutoff;] *)
Definition highpass (cutoff : Z) : Z -> bool := fun n => Z.geb n cutoff.

(** [const gt3 = highpass(3);] *)
Definition gt3 : Z -> bool := highpass 3.

(** *** Facts *)

Lemma startsWithS_for_reduce_for (words : list value) (n i : nat)
  (filtered : list value) :
  FirstOrder.startsWithS_for words i n filtered
  = Hof.reduce_for
      (fun acc curr =>
         keep ← startsWith curr "s";
         mret (if keep : bool then acc ++ [curr] else acc))
      words i n filtered.
Proof.
  revert i filtered.
  induction n as [|n IH]; intros i filtered; [reflexivity|].
  simpl. destruct (startsWith (Hof.at_index words i) "s") as [keep|e];
    simpl; [|reflexivity].
  apply IH.
Qed.

Lemma prefix_s (w : string) : String.prefix "s" w = begins_with_s w.
Proof.
  destruct w as [|c w]; [reflexivity|].
  change (String.prefix "s" (String c w))
    with (if ascii_dec "s"%char c then String.prefix "" w else false).
  unfold begins_with_s.
  destruct (ascii_dec "s"%char c) as [<-|Hne].
  - by destruct w.
  - symmetry. apply Ascii.eqb_neq. congruence.
Qed.

Lemma filter_strings (fn : value -> result bool) (p : string -> bool)
  (words : list string) :
  (forall w, fn (VStr w) = Ok (p w)) ->
  Hof.filter fn (VStr <$> words) = Ok (VStr <$> List.filter p words).
Proof.
  intros Hfn. rewrite <- Hof.filter_agrees, MapFilter.filter_as_fold.
  enough (H : forall acc : list value,
             fold_left
               (fun acc item => acc ≫= fun newArr =>
                  keep ← fn item;
                  mret (if keep : bool then newArr ++ [item] else newArr))
               (VStr <$> words) (Ok acc)
             = Ok (acc ++ (VStr <$> List.filter p words)))
    by apply (H []).
  induction words as [|w words IH]; intros acc.
  - simpl. by rewrite app_nil_r.
  - rewrite fmap_cons. cbn [fold_left]. simpl. rewrite Hfn. simpl.
    rewrite IH. destruct (p w); [|reflexivity].
    rewrite fmap_cons. by rewrite <- app_assoc.
Qed.

(** X9.  The filter-based [startsWithS] refines the first-order one: on
    every array the two return the same outcome.  On an array of strings
    both return exactly the words that begin with [s], in their original
    order.  Unlike [censor], which keeps a number (it has no [length]
    equal to 4), [startsWithS] throws a TypeError on an array that holds a
    number after strings: a number has no [startsWith]. *)
Theorem startsWithS_refines_first_order :
  (forall arr : list value, startsWithS arr = FirstOrder.startsWithS arr)
  /\ (forall words : list string,
        startsWithS (VStr <$> words)
        = Ok (VStr <$> List.filter begins_with_s words)
        /\ FirstOrder.startsWithS (VStr <$> words)
           = Ok (VStr <$> List.filter begins_with_s words))
  /\ (forall (words : list string) (n : Z) (after : list value),
        startsWithS ((VStr <$> words) ++ VNum n :: after)
        = Err (TypeError "word.startsWith is not a function")
        /\ Hof.censor [VNum n] = Ok [VNum n])
  /\ startsWithS [VStr "oops"; VStr "gasp"; VStr "shout"; VStr "sun"]
     = Ok [VStr "shout"; VStr "sun"].
Proof.
  assert (Hrefine : forall arr, startsWithS arr = FirstOrder.startsWithS arr).
  { intros arr. unfold startsWithS, Hof.filter, Hof.reduce,
      FirstOrder.startsWithS.
    symmetry. apply startsWithS_for_reduce_for. }
  assert (Hstrings : forall words : list string,
             startsWithS (VStr <$> words)
             = Ok (VStr <$> List.filter begins_with_s words)).
  { intros words. unfold startsWithS. apply filter_strings.
    intros w. simpl. by rewrite prefix_s. }
  split; [exact Hrefine|]. split; [|split].
  - intros words. by rewrite <- Hrefine, Hstrings.
  - intros words n after. split; [|reflexivity].
    unfold startsWithS.
    apply (MapFilter.filter_first_error
             (fun word => startsWith word "s")); [|reflexivity].
    apply Forall_fmap, Forall_forall. intros w _. simpl. eauto.
  - vm_compute. reflexivity.
Qed.

Lemma reduce_app {B : Type} (reducer : B -> value -> result B) (initial : B)
  (xs ys : list value) :
  Hof.reduce reducer initial (xs ++ ys)
  = Hof.reduce reducer initial xs ≫= fun acc => Hof.reduce reducer acc ys.
Proof.
  rewrite !Hof.reduce_as_fold, fold_left_app.
  destruct (fold_left _ xs (Ok initial)) as [acc|e]; simpl.
  - by rewrite Hof.reduce_as_fold.
  - apply (MapFilter.fold_Err reducer).
Qed.

(** X10.  The hand-written [reduce] folds from the left: on the empty
    array it returns the initial value; reducing a concatenation is
    reducing the first part and going on from its result with the second;
    when the reducer throws at an item the whole reduce throws that
    exception, whatever follows; and for a reducer of two arguments it
    agrees with [Array.prototype.reduce]. *)
Theorem reduce_folds_left :
  (forall (B : Type) (reducer : B -> value -> result B) (initial : B),
      Hof.reduce reducer initial [] = Ok initial)
  /\ (forall (B : Type) (reducer : B -> value -> result B) (initial : B)
        (xs ys : list value),
        Hof.reduce reducer initial (xs ++ ys)
        = Hof.reduce reducer initial xs
            ≫= fun acc => Hof.reduce reducer acc ys)
  /\ (forall (B : Type) (reducer : B -> value -> result B) (initial acc : B)
        (xs ys : list value) (a : value) (e : error),
        Hof.reduce reducer initial xs = Ok acc ->
        reducer acc a = Err e ->
        Hof.reduce reducer initial (xs ++ a :: ys) = Err e)
  /\ (forall (B : Type) (reducer : B -> value -> result B) (initial : B)
        (arr : list value),
        ArrayPrototype.reduce (throwing reducer) (Ok initial) arr
        = Hof.reduce reducer initial arr).
Proof.
  split; [reflexivity|]. split; [intros; apply reduce_app|]. split.
  - intros B reducer initial acc xs ys a e Hxs Ha.
    rewrite reduce_app, Hxs. simpl.
    change (a :: ys) with ([a] ++ ys). rewrite reduce_app.
    assert (Hone : Hof.reduce reducer acc [a] = Err e).
    { unfold Hof.reduce. cbn [length Hof.reduce_for].
      change (Hof.at_index [a] 0) with a. by rewrite Ha. }
    by rewrite Hone.
  - intros B reducer initial arr. rewrite Hof.reduce_as_fold.
    apply ArrayPrototype.reduce_fold_left. reflexivity.
Qed.

(** X11.  [arr.filter(highpass(cutoff))] keeps exactly the numbers that
    are at least [cutoff], in order: every number kept is at least
    [cutoff].  Two high-pass filters in a row are one with the larger
    cutoff, in either order.  [[1, 2, 3, 4].filter(gt3)] is [[3, 4]]. *)
Theorem highpass_filter :
  (forall (cutoff : Z) (arr : list Z),
      ArrayMethods.filter (ArrayMethods.unary (highpass cutoff)) arr
      = List.filter (fun n => Z.leb cutoff n) arr
      /\ Forall (fun n => cutoff <= n)
           (ArrayMethods.filter (ArrayMethods.unary (highpass cutoff)) arr))
  /\ (forall (a b : Z) (arr : list Z),
        ArrayMethods.filter (ArrayMethods.unary (highpass b))
          (ArrayMethods.filter (ArrayMethods.unary (highpass a)) arr)
        = ArrayMethods.filter (ArrayMethods.unary (highpass (Z.max a b))) arr
        /\ ArrayMethods.filter (ArrayMethods.unary (highpass a))
             (ArrayMethods.filter (ArrayMethods.unary (highpass b)) arr)
           = ArrayMethods.filter (ArrayMethods.unary (highpass (Z.max a b)))
               arr)
  /\ ArrayMethods.filter (ArrayMethods.unary gt3) [1; 2; 3; 4] = [3; 4].
Proof.
  assert (Htwice : forall a b arr,
             List.filter (highpass b) (List.filter (highpass a) arr)
             = List.filter (highpass (Z.max a b)) arr).
  { intros a b arr. induction arr as [|n arr IH]; [reflexivity|].
    assert (Hmax : highpass (Z.max a b) n = highpass a n && highpass b n).
    { unfold highpass. rewrite !Z.geb_leb.
      destruct (Z.leb_spec (Z.max a b) n), (Z.leb_spec a n),
        (Z.leb_spec b n); simpl; try reflexivity; lia. }
    simpl. rewrite Hmax. destruct (highpass a n); simpl; [|exact IH].
    destruct (highpass b n); by rewrite IH. }
  split; [|split].
  - intros cutoff arr. rewrite ArrayMethods.filter_unary. split.
    + apply List.filter_ext. intros n. unfold highpass.
      destruct (Z.geb_spec n cutoff), (Z.leb_spec cutoff n); lia || reflexivity.
    + apply Forall_forall. intros n Hn.
      apply list_elem_of_In, List.filter_In in Hn. destruct Hn as [_ Hn].
      unfold highpass in Hn. destruct (Z.geb_spec n cutoff); [lia | discriminate].
  - intros a b arr. rewrite !ArrayMethods.filter_unary. split.
    + apply Htwice.
    + rewrite Htwice. by rewrite Z.max_comm.
  - vm_compute. reflexivity.
Qed.

End HofMore.

(** ** nocs-06-functors.js: arrays as functors, the iterator of
    [Identity], [fRange], [ifExists] and [curry] *)
Module FunctorsMore.

(** *** The iteration protocol of [Identity] *)

(** The iterator [[Symbol.iterator]()] returns: its closure variable
    [first] and the [value] it captured. *)
Record iterator (A : Type) : Type := Iterator { first : bool; held : A }.

Arguments Iterator {A} first held.
Arguments first {A} i.
Arguments held {A} i.

(** [{ done: false, value }] and [{ done: true }]. *)
Inductive iter_result (A : Type) : Type :=
| Yield (value : A)
| Done.

Arguments Yield {A} value.
Arguments Done {A}.

(** [[Symbol.iterator]: () => { let first = true; return { next: ... }; }] *)
Definition Symbol_iterator {A : Type} (u : Functors.IdentityObj A)
  : iterator A :=
  Iterator true (Functors.captured u).

(** [next: () => { if (first) { first = false; return { done: false, value }; }
                   return { done: true }; }] *)
Definition next {A : Type} (it : iterator A) : iter_result A * iterator A :=
  if first it then (Yield (held it), Iterator false (held it))
  else (Done, it).

(** Consuming an iterator, as spread syntax does: [next()] is called until
    it reports [done].  [fuel] bounds the number of calls; [None] means
    the bound was reached first. *)
Fixpoint drain {A : Type} (fuel : nat) (it : iterator A) : option (list A) :=
  match fuel with
  | 0%nat => None
  | S fuel' =>
      match next it with
      | (Yield v, it') => (fun rest => v :: rest) <$> drain fuel' it'
      | (Done, _) => Some []
      end
  end.

(** [[...u]] *)
Definition spread {A : Type} (fuel : nat) (u : Functors.IdentityObj A)
  : option (list A) :=
  drain fuel (Symbol_iterator u).

(** The iterator after [n] calls of [next()]. *)
Definition after_calls {A : Type} (n : nat) (it : iterator A) : iterator A :=
  Nat.iter n (fun it => (next it).2) it.

(** *** [fRange] *)

(** The loop of [Array.from({ length }, mapFn)]: [mapFn] is called with
    [undefined] and the index [k], for [k] from 0 up. *)
Fixpoint from_loop {B : Type} (mapFn : nat -> B) (k n : nat) (out : list B)
  : list B :=
  match n with
  | 0%nat => out
  | S n' => from_loop mapFn (S k) n' (out ++ [mapFn k])
  end.

(** [-x] and [a - b] on numbers. *)
Definition negate (v : value) : value :=
  match v with
  | VNum n => VNum (- n)
  | VNonFinite PosInfinity => VNonFinite NegInfinity
  | VNonFinite NegInfinity => VNonFinite PosInfinity
  | _ => VNonFinite NaN
  end.

Definition number_sub (a b : value) : value := number_add a (negate b).

(** ToLength: a length that is not positive (or is NaN) counts as 0, and
    nothing counts as more than 2^53 - 1. *)
Definition to_length (v : value) : Z :=
  match v with
  | VNum n => Z.min (Z.max n 0) (2 ^ 53 - 1)
  | VNonFinite PosInfinity => 2 ^ 53 - 1
  | _ => 0
  end.

(** [Array.from({ length }, mapFn)]: an array of more than 2^32 - 1
    elements cannot be created. *)
Definition Array_from_length {B : Type} (length : value) (mapFn : nat -> B)
  : result (list B) :=
  let len := to_length length in
  if 2 ^ 32 - 1 <? len then Err (RangeError "Invalid array length")
  else Ok (from_loop mapFn 0 (Z.to_nat len) []).

(** [const fRange = (start, end) => Array.from(
      { length: end - start + 1 },
      (x, i) => start.constructor(i + start));]
    on an [Identity] of a number: arithmetic reads it through [valueOf],
    and its [constructor] is [Identity]. *)
Definition fRange (start : Functors.IdentityObj Z) (end_ : Z)
  : result (list (Functors.IdentityObj value)) :=
  let s := VNum (Functors.valueOf start) in
  Array_from_length (number_add (number_sub (VNum end_) s) (VNum 1))
    (fun i => Functors.Identity (number_add (VNum (Z.of_nat i)) s)).

(** *** [ifExists] *)

(** [const exists = x => (x.valueOf() !== undefined && x.valueOf() !== null);] *)
Definition exists_ (x : Functors.IdentityObj value) : bool :=
  negb (match Functors.valueOf x with VUndefined => true | _ => false end)
  && negb (match Functors.valueOf x with VNull => true | _ => false end).

(** [ifExists(x).map(fn)], where
    [const ifExists = x => ({ map: fn => exists(x) ? x.map(fn) : x });] *)
Definition ifExists_map {L : Type} (x : Functors.IdentityObj value)
  (fn : value -> Functors.io L value)
  : Functors.io L (Functors.IdentityObj value) :=
  if exists_ x then Functors.map fn x else Functors.io_ret x.

(** *** [curry] *)

Section Curry.

Context {A R : Type}.

(** [f.length], the number of parameters of [f], and [f(...a)]. *)
Variable arity : nat.
Variable f : list A -> R.

(** What a call of the curried function gives: the result of [f], or
    [curry(f, a)], a function that remembers the arguments [a]. *)
Inductive outcome : Type :=
| Returned (r : R)
| Curried (a : list A).

(** [curry(f, arr)(...args)], where
    [const curry = (f, arr = []) => (...args) => (
       a => a.length === f.length ? f(...a) : curry(f, a)
     )([...arr, ...args]);] *)
Definition curry (arr args : list A) : outcome :=
  let a := arr ++ args in
  if Nat.eqb (length a) arity then Returned (f a) else Curried a.

(** [curry(f, arr)(...g1)(...g2)...]: the outcome, and the calls that are
    left over once [f] has returned (they would go to its result). *)
Fixpoint calls (arr : list A) (groups : list (list A))
  : outcome * list (list A) :=
  match groups with
  | [] => (Curried arr, [])
  | g :: rest =>
      match curry arr g with
      | Returned r => (Returned r, rest)
      | Curried a => calls a rest
      end
  end.

End Curry.

Arguments Returned {A R} r.
Arguments Curried {A R} a.

(** *** Facts *)

(** X12.  Arrays obey the functor laws under [map] with unary functions:
    mapping [x => x] gives the array back, mapping [x => f(g(x))] is
    mapping [g] and then [f], and the length is kept. *)
Theorem array_functor_laws :
  (forall (A : Type) (F : list A),
      ArrayMethods.map (ArrayMethods.unary (fun x => x)) F = F)
  /\ (forall (A B C : Type) (f : B -> C) (g : A -> B) (F : list A),
        ArrayMethods.map (ArrayMethods.unary (fun x => f (g x))) F
        = ArrayMethods.map (ArrayMethods.unary f)
            (ArrayMethods.map (ArrayMethods.unary g) F))
  /\ (forall (A B : Type) (f : A -> B) (F : list A),
        length (ArrayMethods.map (ArrayMethods.unary f) F) = length F)
  /\ ArrayMethods.map (ArrayMethods.unary Reduce.double) [1; 2; 3] = [2; 4; 6].
Proof.
  split; [|split; [|split]].
  - intros A F. rewrite ArrayMethods.map_unary. apply list_fmap_id.
  - intros A B C f g F. rewrite !ArrayMethods.map_unary.
    apply (list_fmap_compose g f).
  - intros A B f F. rewrite ArrayMethods.map_unary. apply length_fmap.
  - vm_compute. reflexivity.
Qed.

Lemma after_calls_done {A : Type} (n : nat) (it : iterator A) :
  first (after_calls (S n) it) = false
  /\ held (after_calls (S n) it) = held it.
Proof.
  induction n as [|n [IHf IHh]].
  - destruct it as [[|] h]; split; reflexivity.
  - change (after_calls (S (S n)) it)
      with ((next (after_calls (S n) it)).2).
    unfold next. rewrite IHf. simpl. auto.
Qed.

(** X13.  Iterating an [Identity] yields its value exactly once: the
    first [next()] gives the value, every later [next()] reports [done],
    so spreading it gives the one-element array of its value as soon as
    two calls of [next()] are allowed, and [[6, 7, ...Identity(8)]] is
    [[6, 7, 8]].  Each [[Symbol.iterator]()] starts afresh. *)
Theorem Identity_iterates_once :
  (forall (A : Type) (v : A),
      (next (Symbol_iterator (Functors.Identity v))).1 = Yield v)
  /\ (forall (A : Type) (v : A) (n : nat),
        (next (after_calls (S n) (Symbol_iterator (Functors.Identity v)))).1
        = Done)
  /\ (forall (A : Type) (v : A) (fuel : nat),
        spread (S (S fuel)) (Functors.Identity v) = Some [v])
  /\ (forall (A : Type) (v : A),
        spread 1 (Functors.Identity v) = None)
  /\ ((fun rest => [6; 7] ++ rest) <$> spread 2 (Functors.Identity 8))
     = Some [6; 7; 8].
Proof.
  split; [reflexivity|]. split; [|split; [reflexivity|split; reflexivity]].
  intros A v n.
  destruct (after_calls_done n (Symbol_iterator (Functors.Identity v)))
    as [Hf _].
  unfold next. by rewrite Hf.
Qed.

Lemma from_loop_seq {B : Type} (mapFn : nat -> B) (n k : nat) (out : list B) :
  from_loop mapFn k n out = out ++ (mapFn <$> seq k n).
Proof.
  revert k out. induction n as [|n IH]; intros k out; simpl.
  - by rewrite app_nil_r.
  - rewrite IH. by rewrite <- app_assoc.
Qed.

Lemma fRange_length (s e : Z) :
  Z.abs (e - s) <= 2 ^ 53 ->
  e - s + 1 <= 2 ^ 53 ->
  to_length (number_add (number_sub (VNum e) (VNum s)) (VNum 1))
  = Z.min (Z.max (e - s + 1) 0) (2 ^ 53 - 1).
Proof.
  intros Hdiff Hlen. unfold number_sub, negate, number_add.
  replace (e + - s) with (e - s) by lia.
  rewrite Reduce.round_to_double_exact by exact Hdiff.
  rewrite Reduce.round_to_double_exact by (unfold two53; lia).
  reflexivity.
Qed.

Lemma fRange_in_range (s e : Z) :
  Z.abs s <= 2 ^ 53 -> Z.abs e <= 2 ^ 53 -> Z.abs (e - s) <= 2 ^ 53 ->
  e - s + 1 <= 2 ^ 32 - 1 ->
  fRange (Functors.Identity s) e
  = Ok ((fun n => Functors.Identity (VNum n)) <$> seqZ s (e - s + 1)).
Proof.
  intros Hs He Hdiff Hlen. unfold fRange, Array_from_length. cbn zeta.
  change (Functors.valueOf (Functors.Identity s)) with s.
  rewrite fRange_length by lia.
  destruct (Z.ltb_spec (2 ^ 32 - 1) (Z.min (Z.max (e - s + 1) 0) (2 ^ 53 - 1)))
    as [Hbig|_]; [lia|].
  replace (Z.to_nat (Z.min (Z.max (e - s + 1) 0) (2 ^ 53 - 1)))
    with (Z.to_nat (e - s + 1)) by lia.
  rewrite from_loop_seq. simpl. f_equal.
  unfold seqZ. rewrite <- list_fmap_compose.
  apply list_fmap_ext. intros i n Hn. simpl.
  apply lookup_seq in Hn as [-> Hi].
  unfold number_add. rewrite Reduce.round_to_double_exact.
  - repeat f_equal; lia.
  - unfold two53. lia.
Qed.

(** X14.  [fRange(Identity(s), e)] is the range from [s] to [e].  For
    integers [s] and [e] of absolute value up to 2^53 whose difference is
    in that range too, and with at most 2^32 - 1 items to make, its items
    hold [s], [s + 1], ..., [e] in this order, there are [e - s + 1] of
    them, and none when [e < s].  With 2^32 items or more to make it
    throws a RangeError. *)
Theorem fRange_is_the_range :
  (forall s e : Z,
      Z.abs s <= 2 ^ 53 -> Z.abs e <= 2 ^ 53 -> Z.abs (e - s) <= 2 ^ 53 ->
      e - s + 1 <= 2 ^ 32 - 1 ->
      fRange (Functors.Identity s) e
      = Ok ((fun n => Functors.Identity (VNum n)) <$> seqZ s (e - s + 1))
      /\ length (seqZ s (e - s + 1)) = Z.to_nat (e - s + 1)
      /\ (e < s -> fRange (Functors.Identity s) e = Ok [])
      /\ (forall (i : nat) (n : Z),
            seqZ s (e - s + 1) !! i = Some n ->
            n = s + Z.of_nat i /\ s <= n <= e))
  /\ (forall s e : Z,
        Z.abs s <= 2 ^ 53 -> Z.abs e <= 2 ^ 53 ->
        2 ^ 32 <= e - s + 1 <= 2 ^ 53 ->
        fRange (Functors.Identity s) e
        = Err (RangeError "Invalid array length"))
  /\ fRange (Functors.Identity 2) 4
     = Ok [Functors.Identity (VNum 2); Functors.Identity (VNum 3);
           Functors.Identity (VNum 4)].
Proof.
  split; [|split].
  - intros s e Hs He Hdiff Hlen.
    split; [by apply fRange_in_range|].
    split; [apply length_seqZ|]. split.
    + intros Hlt. rewrite fRange_in_range by assumption.
      by rewrite seqZ_nil by lia.
    + intros i n Hn. apply lookup_seqZ in Hn. lia.
  - intros s e Hs He Hlen. unfold fRange, Array_from_length. cbn zeta.
    change (Functors.valueOf (Functors.Identity s)) with s.
    rewrite fRange_length by lia.
    destruct (Z.ltb_spec (2 ^ 32 - 1)
                (Z.min (Z.max (e - s + 1) 0) (2 ^ 53 - 1)))
      as [_|Hsmall]; [reflexivity | lia].
  - vm_compute. reflexivity.
Qed.

(** X15.  [ifExists(x).map(fn)] guards one call: when [x] holds
    [undefined] or [null], [fn] is not run (nothing is printed) and [x]
    itself comes back; otherwise the result is [x.map(fn)].  What comes
    back is a plain [Identity], so the guard does not extend to the next
    [map]: if [fn] returns [undefined], a following [.map(trace)] still
    runs and prints [undefined]. *)
Theorem ifExists_guards_one_map :
  (forall (L : Type) (fn : value -> Functors.io L value) (out : list L),
      ifExists_map (Functors.Identity VUndefined) fn out
      = (Functors.Identity VUndefined, out)
      /\ ifExists_map (Functors.Identity VNull) fn out
         = (Functors.Identity VNull, out))
  /\ (forall (L : Type) (v : value) (fn : value -> Functors.io L value)
        (out : list L),
        v <> VUndefined -> v <> VNull ->
        ifExists_map (Functors.Identity v) fn out
        = Functors.map fn (Functors.Identity v) out)
  /\ (forall (v : value) (out : list value),
        v <> VUndefined -> v <> VNull ->
        Functors.io_bind
          (ifExists_map (Functors.Identity v)
             (Functors.pure (fun _ => VUndefined)))
          (Functors.map Functors.trace) out
        = (Functors.Identity VUndefined, out ++ [VUndefined])).
Proof.
  assert (H : forall (L : Type) (v : value) (fn : value -> Functors.io L value)
                (out : list L),
             v <> VUndefined -> v <> VNull ->
             ifExists_map (Functors.Identity v) fn out
             = Functors.map fn (Functors.Identity v) out).
  { intros L v fn out Hu Hn. unfold ifExists_map, exists_. simpl.
    destruct v; try reflexivity; congruence. }
  split; [|split].
  - intros L fn out. split; reflexivity.
  - exact H.
  - intros v out Hu Hn. unfold Functors.io_bind at 1.
    rewrite (H value v _ out Hu Hn). reflexivity.
Qed.

Lemma calls_reach_arity {A R : Type} (arity : nat) (f : list A -> R)
  (groups : list (list A)) (arr : list A) :
  (length arr < arity)%nat ->
  Forall (fun g => g <> []) groups ->
  (length arr + length (List.concat groups))%nat = arity ->
  calls arity f arr groups = (Returned (f (arr ++ List.concat groups)), []).
Proof.
  revert arr. induction groups as [|g groups IH]; intros arr Hlt Hne Hsum.
  - simpl in Hsum. lia.
  - apply Forall_cons in Hne as [Hg Hne].
    simpl in Hsum. rewrite length_app in Hsum.
    cbn [calls]. unfold curry. cbn zeta.
    destruct (Nat.eqb_spec (length (arr ++ g)) arity) as [Heq|Hneq].
    + rewrite length_app in Heq.
      assert (Hnil : List.concat groups = []).
      { apply length_zero_iff_nil. lia. }
      destruct groups as [|g' groups].
      * simpl. by rewrite app_nil_r.
      * apply Forall_cons in Hne as [Hg' _].
        destruct g' as [|x g']; [congruence|]. simpl in Hnil. discriminate.
    + rewrite length_app in Hneq. simpl.
      rewrite app_assoc. apply IH; [|exact Hne|].
      * rewrite length_app. lia.
      * rewrite length_app. lia.
Qed.

Lemma calls_past_arity {A R : Type} (arity : nat) (f : list A -> R)
  (groups : list (list A)) (arr : list A) :
  (arity < length arr)%nat ->
  calls arity f arr groups = (Curried (arr ++ List.concat groups), []).
Proof.
  revert arr. induction groups as [|g groups IH]; intros arr Hgt.
  - simpl. by rewrite app_nil_r.
  - cbn [calls]. unfold curry. cbn zeta.
    destruct (Nat.eqb_spec (length (arr ++ g)) arity) as [Heq|Hneq].
    + rewrite length_app in Heq. lia.
    + simpl. rewrite app_assoc. apply IH. rewrite length_app. lia.
Qed.

(** X16.  However the arguments of a curried function are grouped, once
    exactly [f.length] of them have been supplied [f] is called with all
    of them in order: for non-empty groups whose sizes add up to
    [f.length], the chain of calls returns [f] of the concatenation. *)
Theorem curry_collects_arguments {A R : Type} (arity : nat) (f : list A -> R)
  (groups : list (list A)) :
  (0 < arity)%nat ->
  Forall (fun g => g <> []) groups ->
  length (List.concat groups) = arity ->
  calls arity f [] groups = (Returned (f (List.concat groups)), []).
Proof.
  intros Hpos Hne Hsum.
  apply (calls_reach_arity arity f groups []); simpl; auto.
Qed.

Lemma curry_collects_arguments_witness :
  calls 3 (fun a : list Z => foldr Z.add 0 a) [] [[1]; [2; 3]]
  = (Returned 6, []).
Proof.
  apply (curry_collects_arguments 3 (fun a : list Z => foldr Z.add 0 a)
           [[1]; [2; 3]]).
  - lia.
  - repeat constructor; discriminate.
  - reflexivity.
Defined.

(** X17.  [curry] compares the number of arguments with [f.length] by
    [===]: a call that takes the count past [f.length] never calls [f],
    and no later call does; each returns a curried function that holds
    all the arguments so far.  A call without arguments changes nothing
    unless [f] takes no parameters, in which case it calls [f]. *)
Theorem curry_skips_past_arity :
  (forall (A R : Type) (arity : nat) (f : list A -> R) (arr args : list A),
      (arity < length (arr ++ args))%nat ->
      curry arity f arr args = Curried (arr ++ args))
  /\ (forall (A R : Type) (arity : nat) (f : list A -> R) (arr : list A)
        (groups : list (list A)),
        (arity < length arr)%nat ->
        calls arity f arr groups = (Curried (arr ++ List.concat groups), []))
  /\ (forall (A R : Type) (arity : nat) (f : list A -> R) (arr : list A),
        length arr <> arity ->
        curry arity f arr [] = Curried arr)
  /\ (forall (A R : Type) (f : list A -> R),
        curry 0 f [] [] = Returned (f [])).
Proof.
  split; [|split; [|split]].
  - intros A R arity f arr args Hgt. unfold curry. cbn zeta.
    destruct (Nat.eqb_spec (length (arr ++ args)) arity); [lia | reflexivity].
  - intros. by apply calls_past_arity.
  - intros A R arity f arr Hne. unfold curry. cbn zeta.
    rewrite app_nil_r.
    destruct (Nat.eqb_spec (length arr) arity); [congruence | reflexivity].
  - reflexivity.
Qed.

End FunctorsMore.

(** ** The "Functional Mixins" notes: how mixins combine *)
Module MixinsMore.

Import Mixins.

(** *** Copying and enumerable properties

    [Object.assign] and object spread copy the own properties of a source
    that are enumerable.  The properties of an object literal and of a
    copy all are; [Object.defineProperty] can make one that is not. *)

(** A property with its [enumerable] attribute. *)
Record described : Type := Described { enumerable : bool; content : prop }.

Abbreviation described_object := (gmap string described).

(** An object written as a literal, or returned by a copy: every property
    is enumerable. *)
Definition literal (o : object) : described_object :=
  Described true <$> o.

(** What a copy takes from a source: its enumerable properties, which
    arrive as ordinary (enumerable) properties of the target. *)
Definition copied (source : described_object) : described_object :=
  omap (fun d => if enumerable d then Some (Described true (content d))
                 else None)
    source.

(** [Object.assign({}, s1, ..., sn)] and [{...s1, ..., ...sn}]: the
    sources are copied onto a fresh object in turn. *)
Definition assign (sources : list described_object) : described_object :=
  fold_left (fun target source => copied source ∪ target) sources ∅.

(** What the copy of a source shows for a key. *)
Definition copied_entry (source : described_object) (k : string)
  : option described :=
  match source !! k with
  | Some d => if enumerable d then Some (Described true (content d)) else None
  | None => None
  end.

(** [const a = Object.defineProperty({}, 'a', { enumerable: false, value: 'a' });] *)
Definition a : described_object :=
  {[ "a" := Described false (Data (VStr "a")) ]}.

(** [const b = { b: 'b' };] *)
Definition b : described_object := literal {[ "b" := Data (VStr "b") ]}.

(** *** Facts *)

Lemma Object_assign_snoc (sources : list object) (source : object) :
  Object_assign (sources ++ [source]) = source ∪ Object_assign sources.
Proof.
  unfold Object_assign. by rewrite fold_left_app.
Qed.

Lemma assign_snoc (sources : list described_object)
  (source : described_object) :
  assign (sources ++ [source]) = copied source ∪ assign sources.
Proof.
  unfold assign. by rewrite fold_left_app.
Qed.

Lemma lookup_copied (source : described_object) (k : string) :
  copied source !! k = copied_entry source k.
Proof.
  unfold copied, copied_entry. rewrite lookup_omap.
  by destruct (source !! k).
Qed.

Lemma assign_lookup_snoc (sources : list described_object)
  (source : described_object) (k : string) :
  assign (sources ++ [source]) !! k
  = match copied_entry source k with
    | Some d => Some d
    | None => assign sources !! k
    end.
Proof.
  rewrite assign_snoc, lookup_union, lookup_copied.
  destruct (copied_entry source k); simpl;
    by destruct (assign sources !! k).
Qed.

Lemma assign_lookup_None (sources : list described_object) (k : string) :
  assign sources !! k = None
  <-> Forall (fun source => copied_entry source k = None) sources.
Proof.
  induction sources as [|source sources IH] using rev_ind.
  - split; [constructor | reflexivity].
  - rewrite assign_lookup_snoc, Forall_app, Forall_singleton.
    destruct (copied_entry source k) as [d|]; split.
    + discriminate.
    + intros [_ H]. discriminate.
    + intros H. split; [by apply IH | reflexivity].
    + intros [H _]. by apply IH.
Qed.

Lemma assign_lookup_Some (sources : list described_object) (k : string)
  (d : described) :
  assign sources !! k = Some d ->
  enumerable d = true
  /\ exists source : described_object,
       source ∈ sources
       /\ source !! k = Some (Described true (content d)).
Proof.
  induction sources as [|source sources IH] using rev_ind.
  - discriminate.
  - rewrite assign_lookup_snoc.
    destruct (copied_entry source k) as [d'|] eqn:E.
    + intros [= <-]. unfold copied_entry in E.
      destruct (source !! k) as [[[|] c]|] eqn:Ek; simpl in E;
        try discriminate.
      injection E as <-. split; [reflexivity|].
      exists source. split; [|exact Ek].
      apply elem_of_app. right. by apply list_elem_of_singleton.
    + intros H. destruct (IH H) as (Hen & s & Hs & Hk).
      split; [exact Hen|]. exists s. split; [|exact Hk].
      apply elem_of_app. by left.
Qed.

Lemma copied_literal (o : object) : copied (literal o) = literal o.
Proof.
  apply map_eq. intros k. rewrite lookup_copied.
  unfold copied_entry, literal. rewrite lookup_fmap.
  by destruct (o !! k).
Qed.

Lemma assign_literals (sources : list object) :
  assign (literal <$> sources) = literal (Object_assign sources).
Proof.
  induction sources as [|source sources IH] using rev_ind.
  - unfold assign, literal, Object_assign. simpl. by rewrite fmap_empty.
  - rewrite fmap_app. simpl. rewrite assign_snoc, Object_assign_snoc, IH.
    rewrite copied_literal. unfold literal. by rewrite map_fmap_union.
Qed.

(** X18.  Mixing is "last in wins" among the properties a copy sees.  In
    [Object.assign({}, s1, ..., sn)] and in [{...s1, ..., ...sn}] a
    property comes from the last source that has it as an enumerable
    property; it is absent exactly when every source lacks it or has it
    non-enumerable; and every property of the result is enumerable and
    was an enumerable property of some source.  So a non-enumerable
    property is lost in a copy ([{...a, ...b}] is [{ b: 'b' }]), while
    objects written as literals or produced by a copy, as all the mixins'
    objects are, are copied whole.  The ice cream has all three flavours,
    and mixing in a second logger replaces the first. *)
Theorem mixing_is_last_in_wins :
  (forall (sources : list described_object) (source : described_object)
      (k : string),
      assign (sources ++ [source]) !! k
      = match copied_entry source k with
        | Some d => Some d
        | None => assign sources !! k
        end)
  /\ (forall (sources : list described_object) (k : string),
        assign sources !! k = None
        <-> Forall (fun source => copied_entry source k = None) sources)
  /\ (forall (sources : list described_object) (k : string) (d : described),
        assign sources !! k = Some d ->
        enumerable d = true
        /\ exists source : described_object,
             source ∈ sources
             /\ source !! k = Some (Described true (content d)))
  /\ (forall sources : list object,
        assign (literal <$> sources) = literal (Object_assign sources))
  /\ assign [a; b] = b
  /\ (forall (first second : logger_fn) (o : object),
        withLogging second (withLogging first o) = withLogging second o)
  /\ (forall (depth : nat) (w : world),
        call (S depth) iceCream "hasChocolate" [] w
        = (Ok (RValue (VBool true)), w)
        /\ call (S depth) iceCream "hasCaramelSwirl" [] w
           = (Ok (RValue (VBool true)), w)
        /\ call (S depth) iceCream "hasPecans" [] w
           = (Ok (RValue (VBool true)), w)).
Proof.
  split; [exact assign_lookup_snoc|].
  split; [exact assign_lookup_None|].
  split; [exact assign_lookup_Some|].
  split; [exact assign_literals|]. split.
  { apply map_eq. intros k.
    change [a; b] with ([a] ++ [b]). rewrite assign_lookup_snoc.
    change [a] with ([] ++ [a]). rewrite assign_lookup_snoc.
    unfold copied_entry, a, b, literal. rewrite lookup_fmap.
    destruct (decide (k = "b")) as [->|Hb].
    - by rewrite lookup_singleton_eq.
    - rewrite (lookup_singleton_ne "b") by done. simpl.
      destruct (decide (k = "a")) as [->|Ha].
      + by rewrite lookup_singleton_eq.
      + by rewrite lookup_singleton_ne by done. }
  split.
  - intros first second o. unfold withLogging.
    rewrite !Object_assign_two. apply map_eq. intros k.
    rewrite !lookup_union.
    destruct (decide (k = "log")) as [->|Hk].
    + rewrite !lookup_singleton_eq. simpl. by destruct (o !! "log").
    + rewrite !lookup_singleton_ne by done. simpl.
      by destruct (o !! k).
  - intros depth w. repeat split; reflexivity.
Qed.

(** X19.  A copy shares the private state of the object it was copied
    from ("inheriting private state"): for [bird = flying(o)] and
    [duck = quacking(quack)(bird)], [duck.fly()] returns the duck and
    makes [bird.isFlying()] true, and [bird.fly()] returns the bird and
    makes [duck.isFlying()] true. *)
Theorem mixin_copy_shares_state (o : object) (quack : value) (w : world)
  (depth : nat) :
  let bird := (flying o w).1 in
  let w0 := (flying o w).2 in
  let duck := quacking quack bird in
  call (S depth) duck "isFlying" [] w0 = (Ok (RValue (VBool false)), w0)
  /\ (call (S depth) duck "fly" [] w0).1 = Ok (RObject duck)
  /\ (call (S depth) bird "isFlying" [] (call (S depth) duck "fly" [] w0).2).1
     = Ok (RValue (VBool true))
  /\ (call (S depth) bird "fly" [] w0).1 = Ok (RObject bird)
  /\ (call (S depth) duck "isFlying" [] (call (S depth) bird "fly" [] w0).2).1
     = Ok (RValue (VBool true)).
Proof.
  intros bird0 w0 duck0.
  destruct (flying_methods o w) as (Hfly & His & _).
  fold bird0 in Hfly, His.
  assert (Hdfly : duck0 !! "fly" = Some (Method (Fly (length (cells w))))).
  { unfold duck0.
    destruct (quacking_methods quack bird0 "fly") as [_ ->]; done. }
  assert (Hdis : duck0 !! "isFlying"
                 = Some (Method (IsFlying (length (cells w))))).
  { unfold duck0.
    destruct (quacking_methods quack bird0 "isFlying") as [_ ->]; done. }
  assert (Hcell : cells w0 !! length (cells w) = Some false)
    by apply flying_cell.
  assert (Hset : forall this,
             (<[length (cells w) := true]> (cells w0)) !! length (cells w)
             = Some true
             /\ invoke (S depth) (Fly (length (cells w))) this [] w0
                = (Ok (RObject this),
                   set_cells w0 (<[length (cells w) := true]> (cells w0)))).
  { intros this. split.
    - apply list_lookup_insert_eq. by eapply lookup_lt_Some.
    - by apply (invoke_Fly _ _ _ _ _ false). }
  unfold call. rewrite Hdfly, Hdis, Hfly, His.
  destruct (Hset duck0) as [Hread ->]. destruct (Hset bird0) as [_ ->].
  rewrite (invoke_IsFlying _ _ _ _ _ _ Hcell).
  repeat split; by rewrite (invoke_IsFlying _ _ _ _ _ true).
Qed.

(** X20.  Two calls of [flying] give objects with separate state: for
    [first = flying(o1)] and then [second = flying(o2)], also when [o2] is
    [first] itself, [second.fly()] leaves [first.isFlying()] false and
    [first.fly()] leaves [second.isFlying()] false. *)
Theorem flying_objects_are_independent (o1 : object) (w : world)
  (depth : nat) :
  let first := (flying o1 w).1 in
  let w1 := (flying o1 w).2 in
  forall o2 : object,
  let second := (flying o2 w1).1 in
  let w2 := (flying o2 w1).2 in
  (call (S depth) first "isFlying" [] (call (S depth) second "fly" [] w2).2).1
  = Ok (RValue (VBool false))
  /\ (call (S depth) second "isFlying" []
        (call (S depth) second "fly" [] w2).2).1
     = Ok (RValue (VBool true))
  /\ (call (S depth) second "isFlying" []
        (call (S depth) first "fly" [] w2).2).1
     = Ok (RValue (VBool false))
  /\ (call (S depth) first "isFlying" []
        (call (S depth) first "fly" [] w2).2).1
     = Ok (RValue (VBool true)).
Proof.
  intros first0 w1 o2 second0 w2.
  destruct (flying_methods o1 w) as (Hfly1 & His1 & _).
  destruct (flying_methods o2 w1) as (Hfly2 & His2 & _).
  fold first0 in Hfly1, His1. fold second0 in Hfly2, His2.
  set (l1 := length (cells w)) in *.
  assert (Hl2 : length (cells w1) = S l1).
  { unfold w1, flying. simpl. rewrite length_app. simpl. lia. }
  rewrite Hl2 in Hfly2, His2.
  assert (Hcells : cells w2 = cells w ++ [false; false]).
  { unfold w2, flying. simpl. by rewrite <- app_assoc. }
  assert (H1 : cells w2 !! l1 = Some false).
  { rewrite Hcells. unfold l1. rewrite lookup_app_r by lia.
    by replace (length (cells w) - length (cells w))%nat with 0%nat by lia. }
  assert (H2 : cells w2 !! S l1 = Some false).
  { rewrite Hcells. unfold l1. rewrite lookup_app_r by lia.
    by replace (S (length (cells w)) - length (cells w))%nat
      with 1%nat by lia. }
  unfold call. rewrite Hfly1, His1, Hfly2, His2.
  rewrite !(invoke_Fly _ _ _ _ _ false) by assumption.
  repeat split.
  - rewrite (invoke_IsFlying _ _ _ _ _ false); [done|]. simpl.
    by rewrite list_lookup_insert_ne by lia.
  - rewrite (invoke_IsFlying _ _ _ _ _ true); [done|]. simpl.
    apply list_lookup_insert_eq. by eapply lookup_lt_Some.
  - rewrite (invoke_IsFlying _ _ _ _ _ false); [done|]. simpl.
    by rewrite list_lookup_insert_ne by lia.
  - rewrite (invoke_IsFlying _ _ _ _ _ true); [done|]. simpl.
    apply list_lookup_insert_eq. by eapply lookup_lt_Some.
Qed.

(** X21.  [addConfig] depends on a [log] method it does not bring along:
    on an object without [log], [get] of a missing key throws a TypeError
    instead of reporting, and nothing is printed.  (With [withLogging]
    mixed in, as [withConfig] does, it reports.) *)
Theorem addConfig_needs_a_log_method (config : gmap string value)
  (o : object) (key : string) (w : world) (depth : nat) :
  o !! "log" = None ->
  config !! key = None ->
  inherited key = false ->
  call (S depth) (addConfig config o) "get" [VStr key] w
  = (Err (TypeError "this.log is not a function"), w).
Proof.
  intros Hlog Hkey Hinh.
  assert (Hget : addConfig config o !! "get" = Some (Method (Get config))).
  { unfold addConfig. by apply mixin_own. }
  assert (Hnolog : addConfig config o !! "log" = None).
  { unfold addConfig. by rewrite mixin_keeps. }
  unfold call. rewrite Hget. cbn [invoke lookup list_lookup].
  by rewrite Hkey, Hinh, Hnolog.
Qed.

Lemma addConfig_needs_a_log_method_witness :
  call 1 (addConfig {[ "host" := VStr "localhost" ]} ∅) "get"
    [VStr "notThere"] empty_world
  = (Err (TypeError "this.log is not a function"), empty_world).
Proof.
  apply (addConfig_needs_a_log_method {[ "host" := VStr "localhost" ]} ∅
           "notThere" empty_world 0); reflexivity.
Defined.

(** X22.  Mixins that add different property names can be applied in
    either order: [withLogging] and [addConfig] commute, so piping them
    the other way round builds the same config object as [createConfig];
    [quacking] and [flying] commute as well. *)
Theorem mixins_with_distinct_names_commute :
  (forall (log : logger_fn) (config : gmap string value) (o : object),
      withLogging log (addConfig config o)
      = addConfig config (withLogging log o))
  /\ (forall opts : options,
        Reduce.pipe [addConfig (initialConfig opts); withLogging (logger opts)] ∅
        = createConfig opts)
  /\ (forall (quack : value) (o : object) (w : world),
        (flying (quacking quack o) w).1 = quacking quack (flying o w).1
        /\ (flying (quacking quack o) w).2 = (flying o w).2).
Proof.
  assert (Hcomm : forall (log : logger_fn) (config : gmap string value)
                    (o : object),
             withLogging log (addConfig config o)
             = addConfig config (withLogging log o)).
  { intros log config o. unfold withLogging, addConfig.
    rewrite !Object_assign_two. apply map_eq. intros k.
    rewrite !lookup_union.
    destruct (decide (k = "log")) as [->|Hlog].
    - rewrite lookup_singleton_eq, lookup_singleton_ne by done.
      simpl. by destruct (o !! "log").
    - rewrite (lookup_singleton_ne "log") by done.
      destruct (decide (k = "get")) as [->|Hget].
      + rewrite lookup_singleton_eq. simpl. by destruct (o !! "get").
      + rewrite lookup_singleton_ne by done. simpl. by destruct (o !! k). }
  split; [exact Hcomm|]. split.
  - intros opts. rewrite Reduce.pipe_left_to_right. simpl.
    rewrite Hcomm. unfold createConfig. by rewrite withConfig_unfold.
  - intros quack o w. split; [|reflexivity].
    unfold flying, quacking. simpl.
    rewrite !Object_assign_two. apply map_eq. intros k.
    rewrite !lookup_union.
    destruct (decide (k = "quack")) as [->|Hq].
    + rewrite lookup_singleton_eq. simpl.
      by destruct (o !! "quack").
    + rewrite (lookup_singleton_ne "quack") by done. simpl.
      destruct (_ !! k); by destruct (o !! k).
Qed.

End MixinsMore.
